(** * Model context-window cache

    A verification development for the module-level cache

      const modelContextWindowCache = new Map<string, number>()
      function normalizeModelId(modelId)
      export function setModelContextWindow(modelId, contextWindow)
      export function getModelContextWindow(modelId)

    The cache is embedded as a finite map threaded through a small state
    monad; JavaScript strings are sequences of code units, JavaScript
    numbers are IEEE 754 binary64 values.

    The second part covers the helpers of the context settings popover
    ([sliderPositionToValue], [valueToSliderPosition],
    [handleThresholdChange]) and the state updates of the ask-user banner
    ([getAnswer], [updateAnswer], [toggleOption], [toggleCustom], the
    answers record of [handleSubmit], [hasValidAnswers] and the removal of
    the answered request from the queue). *)

From Stdlib Require Import ZArith Ascii String SpecFloat Lia.
From stdpp Require Import gmap strings pretty.

Local Open Scope string_scope.

(** ** The host language: strings *)

Module JsString.

(** A string is a sequence of code units; the ones modelled are those
    below 256 (Basic Latin and Latin-1 Supplement), which is where model
    identifiers live.  On these code units the definitions below are the
    ones of ECMAScript. *)

(** ToBoolean on a string: only the empty string is falsy. *)
Definition truthy (s : string) : bool :=
  match s with
  | EmptyString => false
  | String _ _ => true
  end.

(** WhiteSpace and LineTerminator code points below 256:
    TAB, LF, VT, FF, CR, SP and NBSP. *)
Definition isWhiteSpace (c : ascii) : bool :=
  match N_of_ascii c with
  | 9 | 10 | 11 | 12 | 13 | 32 | 160 => true
  | _ => false
  end%N.

(** Simple lower-case mapping of one code unit: A-Z, and the upper-case
    letters of Latin-1 (U+00C0 to U+00DE, but not the multiplication
    sign U+00D7), move up by 32. *)
Definition toLowerUnit (c : ascii) : ascii :=
  let n := N_of_ascii c in
  if ((65 <=? n) && (n <=? 90)
      || (192 <=? n) && (n <=? 222) && negb (n =? 215))%N
  then ascii_of_N (n + 32)
  else c.

(** String.prototype.trimStart *)
Fixpoint trimStart (s : string) : string :=
  match s with
  | EmptyString => EmptyString
  | String c s' => if isWhiteSpace c then trimStart s' else s
  end.

(** String.prototype.trimEnd *)
Fixpoint trimEnd (s : string) : string :=
  match s with
  | EmptyString => EmptyString
  | String c s' =>
      match trimEnd s' with
      | EmptyString => if isWhiteSpace c then EmptyString else String c EmptyString
      | t => String c t
      end
  end.

(** String.prototype.trim: white space is removed from both ends. *)
Definition trim (s : string) : string := trimEnd (trimStart s).

(** String.prototype.toLowerCase *)
Fixpoint toLowerCase (s : string) : string :=
  match s with
  | EmptyString => EmptyString
  | String c s' => String (toLowerUnit c) (toLowerCase s')
  end.

(** Every code unit of the string is white space. *)
Fixpoint allWhiteSpace (s : string) : bool :=
  match s with
  | EmptyString => true
  | String c s' => isWhiteSpace c && allWhiteSpace s'
  end.

End JsString.

(** ** The host language: numbers *)

Module JsNumber.

(** A Number is a binary64 value: precision 53, infinities at exponent
    1024.  [S754_finite s m e] is (-1)^s * m * 2^e. *)
Definition number : Type := spec_float.
Definition prec : Z := 53.
Definition emax : Z := 1024.

Definition is_binary64 (x : number) : bool := valid_binary prec emax x.

Definition NaN : number := S754_nan.
Definition Infinity : number := S754_infinity false.
Definition zero : number := S754_zero false.

(** Number.isFinite *)
Definition Number_isFinite (x : number) : bool :=
  match x with
  | S754_zero _ | S754_finite _ _ _ => true
  | S754_infinity _ | S754_nan => false
  end.

(** The relational operators [x <= y] and [x < y]; false as soon as one
    side is NaN. *)
Definition le (x y : number) : bool := SFleb x y.
Definition lt (x y : number) : bool := SFltb x y.

(** The mathematical integer floor of a finite value with a negative
    exponent: an arithmetic right shift rounds towards minus infinity. *)
Definition floorZ (s : bool) (m : positive) (e : Z) : Z :=
  Z.shiftr (cond_Zopp s (Zpos m)) (- e).

(** Math.floor: NaN, the infinities and the zeros are returned as they
    are, and so is a finite value without fractional bits; otherwise the
    result is the Number of the greatest integer below the argument
    (+0 for an argument between 0 and 1). *)
Definition Math_floor (x : number) : number :=
  match x with
  | S754_finite s m e =>
      if (0 <=? e)%Z then x
      else binary_normalize prec emax (floorZ s m e) 0 false
  | _ => x
  end.

(** The integer a Number denotes, when it denotes one. *)
Definition to_integer (x : number) : option Z :=
  match x with
  | S754_zero _ => Some 0%Z
  | S754_finite s m e =>
      if (0 <=? e)%Z then Some (cond_Zopp s (Zpos m * 2 ^ e))%Z
      else if (Zpos m mod 2 ^ (- e) =? 0)%Z
           then Some (cond_Zopp s (Zpos m / 2 ^ (- e)))%Z
           else None
  | _ => None
  end.

(** [z <= x < z + 1] for a finite [x], stated on integers by scaling
    with the power of two of the exponent. *)
Definition floor_of (x : number) (z : Z) : Prop :=
  match x with
  | S754_zero _ => z = 0%Z
  | S754_finite s m e =>
      if (0 <=? e)%Z then z = cond_Zopp s (Zpos m * 2 ^ e)%Z
      else (z * 2 ^ (- e) <= cond_Zopp s (Zpos m) < (z + 1) * 2 ^ (- e))%Z
  | _ => False
  end.

(** A few literals: 0.5, 100.9, 50, 100, 200, 8000, -5. *)
Definition n0_5 : number := S754_finite false 4503599627370496 (-53).
Definition n100_9 : number := S754_finite false 7100206287526298 (-46).
Definition n50 : number := S754_finite false 7036874417766400 (-47).
Definition n100 : number := S754_finite false 7036874417766400 (-46).
Definition n200 : number := S754_finite false 7036874417766400 (-45).
Definition n8000 : number := S754_finite false 8796093022208000 (-40).
Definition neg5 : number := S754_finite true 5629499534213120 (-50).

End JsNumber.

Import JsString JsNumber.

(** ** The module state and its monad *)

(** The module owns one mutable [Map<string, number>]; every function of
    the module is a computation over it. *)
Definition Cache (A : Type) : Type := gmap string number → A * gmap string number.

#[export] Instance Cache_ret : MRet Cache := λ A (a : A) σ, (a, σ).
#[export] Instance Cache_bind : MBind Cache :=
  λ A B (f : A → Cache B) (m : Cache A) σ, let '(a, σ') := m σ in f a σ'.

(** Map.prototype.set and Map.prototype.get on the module's map; [get]
    answers [undefined], here [None], for an absent key. *)
Definition Map_set (k : string) (v : number) : Cache unit :=
  λ σ, (tt, <[k := v]> σ).
Definition Map_get (k : string) : Cache (option number) :=
  λ σ, (σ !! k, σ).

(** The state a computation leaves and the value it returns. *)
Definition state_after {A} (m : Cache A) (σ : gmap string number) : gmap string number := (m σ).2.
Definition value_of {A} (m : Cache A) (σ : gmap string number) : A := (m σ).1.

(** [const modelContextWindowCache = new Map<string, number>()] *)
Definition modelContextWindowCache : gmap string number := ∅.

(** ** The module *)

Definition normalizeModelId (modelId : string) : string :=
  toLowerCase (trim modelId).

Definition setModelContextWindow (modelId : string) (contextWindow : number) : Cache unit :=
  if negb (truthy modelId) then mret tt
  else if negb (Number_isFinite contextWindow) || le contextWindow zero then mret tt
  else Map_set (normalizeModelId modelId) (Math_floor contextWindow).

Definition getModelContextWindow (modelId : string) : Cache (option number) :=
  if negb (truthy modelId) then mret None
  else Map_get (normalizeModelId modelId).

(** ** Clients: sequences of calls *)

Inductive call : Type :=
  | Record (modelId : string) (contextWindow : number)
  | Lookup (modelId : string).

(** What a call hands back: nothing for [setModelContextWindow], a number
    or [undefined] for [getModelContextWindow]. *)
Inductive outcome : Type :=
  | Void
  | Returned (v : option number).

Definition perform (c : call) : Cache outcome :=
  match c with
  | Record modelId contextWindow =>
      _ ← setModelContextWindow modelId contextWindow; mret Void
  | Lookup modelId =>
      v ← getModelContextWindow modelId; mret (Returned v)
  end.

Fixpoint run (cs : list call) : Cache (list outcome) :=
  match cs with
  | [] => mret []
  | c :: cs' => o ← perform c; os ← run cs'; mret (o :: os)
  end.

Definition is_record (c : call) : bool :=
  match c with Record _ _ => true | Lookup _ => false end.

(** ** Vocabulary of the specification *)

(** A write passes the guards of [setModelContextWindow] when its
    identifier is truthy and its window is valid: finite and above zero. *)
Definition valid_window (w : number) : Prop :=
  Number_isFinite w = true ∧ lt zero w = true.

(** The window is rejected: not finite, or at most zero. *)
Definition invalid_window (w : number) : Prop :=
  Number_isFinite w = false ∨ le w zero = true.

(** Two identifiers are equal up to case when lower-casing identifies
    them, and equal up to case and surrounding white space when they are
    such strings with white space put around them. *)
Definition eq_up_to_case (a b : string) : Prop :=
  toLowerCase a = toLowerCase b.

Inductive eq_up_to_case_and_padding : string → string → Prop :=
  | padded (l r l' r' a b : string) :
      allWhiteSpace l = true → allWhiteSpace r = true →
      allWhiteSpace l' = true → allWhiteSpace r' = true →
      eq_up_to_case a b →
      eq_up_to_case_and_padding (l ++ a ++ r) (l' ++ b ++ r').

(** A stored value is a positive integer. *)
Definition positive_integer (v : number) : Prop :=
  ∃ z : Z, to_integer v = Some z ∧ (1 ≤ z)%Z.

(** The identifier is never written by the calls, under any spelling of
    its normalized key. *)
Definition never_recorded (modelId : string) (cs : list call) : Prop :=
  Forall (λ c, match c with
               | Record modelId' _ => normalizeModelId modelId' ≠ normalizeModelId modelId
               | Lookup _ => True
               end) cs.

(** ** The module at run time *)

(** The signatures say [string] and [number]; at run time the functions
    are handed values of any kind, and a call completes normally or
    throws.  This is the same code read without its type annotations, so
    that "does not throw" is a statement about the code. *)
Module Runtime.

(** The primitive values (symbols and big integers left aside). *)
Inductive value : Type :=
  | Undefined
  | Null
  | Bool (b : bool)
  | Num (n : number)
  | Str (s : string).

Inductive error : Type :=
  | TypeError.

(** How an evaluation ends. *)
Inductive completion (A : Type) : Type :=
  | Normal (a : A)
  | Throw (e : error).

Arguments Normal {A} a.
Arguments Throw {A} e.

(** ToBoolean: [undefined], [null], [false], the zeros, NaN and the empty
    string are falsy. *)
Definition ToBoolean (v : value) : bool :=
  match v with
  | Undefined | Null => false
  | Bool b => b
  | Num (S754_zero _) | Num S754_nan => false
  | Num _ => true
  | Str s => truthy s
  end.

(** [modelId.trim().toLowerCase()]: only strings have a [trim] method.
    On [undefined] and [null] the property access throws a TypeError; on a
    boolean or a number the property is [undefined] and calling it throws
    a TypeError. *)
Definition normalizeModelId (modelId : value) : completion string :=
  match modelId with
  | Str s => Normal (toLowerCase (trim s))
  | _ => Throw TypeError
  end.

(** [Number.isFinite] is false on what is not a Number, so that
    [contextWindow <= 0], the right operand of [||], is evaluated on
    Numbers only.  The arguments of [set] are evaluated from left to
    right: [normalizeModelId] first. *)
Definition setModelContextWindow (modelId contextWindow : value) :
    Cache (completion unit) :=
  if negb (ToBoolean modelId) then mret (Normal tt)
  else
    match contextWindow with
    | Num w =>
        if negb (Number_isFinite w) || le w zero then mret (Normal tt)
        else
          match normalizeModelId modelId with
          | Throw e => mret (Throw e)
          | Normal key => _ ← Map_set key (Math_floor w); mret (Normal tt)
          end
    | _ => mret (Normal tt)
    end.

Definition getModelContextWindow (modelId : value) :
    Cache (completion (option number)) :=
  if negb (ToBoolean modelId) then mret (Normal None)
  else
    match normalizeModelId modelId with
    | Throw e => mret (Throw e)
    | Normal key => v ← Map_get key; mret (Normal v)
    end.

(** Calls from anywhere in the process; a call that throws does so into
    its own caller and the cache lives on for the calls after it. *)
Inductive invocation : Type :=
  | InvokeSet (modelId contextWindow : value)
  | InvokeGet (modelId : value).

Definition invoke (c : invocation) : Cache (completion outcome) :=
  match c with
  | InvokeSet modelId contextWindow =>
      r ← setModelContextWindow modelId contextWindow;
      mret (match r with Normal _ => Normal Void | Throw e => Throw e end)
  | InvokeGet modelId =>
      r ← getModelContextWindow modelId;
      mret (match r with Normal v => Normal (Returned v) | Throw e => Throw e end)
  end.

Fixpoint run (cs : list invocation) : Cache (list (completion outcome)) :=
  match cs with
  | [] => mret []
  | c :: cs' => o ← invoke c; os ← run cs'; mret (o :: os)
  end.

(** A call that respects the signatures: a string and a number. *)
Definition of_call (c : call) : invocation :=
  match c with
  | Record modelId contextWindow => InvokeSet (Str modelId) (Num contextWindow)
  | Lookup modelId => InvokeGet (Str modelId)
  end.

End Runtime.


(** The calls of a sequence that are writes. *)
Definition records (cs : list call) : list call := List.filter is_record cs.

(** ** The context settings popover *)

Module JsArith.

(** Math.max and Math.min of two Numbers: NaN as soon as one argument is
    NaN; +0 counts as larger than -0. *)
Definition isNaN (x : number) : bool :=
  match x with S754_nan => true | _ => false end.

Definition Math_max (a b : number) : number :=
  if isNaN a || isNaN b then NaN
  else if lt a b then b
  else if lt b a then a
  else match a with S754_zero true => b | _ => a end.

Definition Math_min (a b : number) : number :=
  if isNaN a || isNaN b then NaN
  else if lt a b then a
  else if lt b a then b
  else match a with S754_zero false => b | _ => a end.

(** The Number of an integer: round to nearest, ties to even, an infinity
    on overflow; a zero keeps the sign it is given. *)
Definition of_integer (z : Z) (negative_zero : bool) : number :=
  binary_normalize prec emax z 0 negative_zero.

Definition isDigit (c : ascii) : bool :=
  let n := N_of_ascii c in ((48 <=? n) && (n <=? 57))%N.

Definition digitValue (c : ascii) : Z := Z.of_N (N_of_ascii c) - 48.

(** The value of the longest prefix of decimal digits; [acc] is [None]
    as long as no digit was read. *)
Fixpoint leadingDigits (s : string) (acc : option Z) : option Z :=
  match s with
  | EmptyString => acc
  | String c s' =>
      if isDigit c
      then leadingDigits s' (Some (10 * default 0 acc + digitValue c))%Z
      else acc
  end.

(** The sign and the mathematical integer [parseInt(s, 10)] reads: white
    space is skipped, then one sign, then the digits; [None] without a
    digit. *)
Definition StringToInteger10 (s : string) : option (bool * Z) :=
  let '(negative, rest) :=
    match trimStart s with
    | String "-" rest => (true, rest)
    | String "+" rest => (false, rest)
    | rest => (false, rest)
    end in
  match leadingDigits rest None with
  | None => None
  | Some z => Some (negative, z)
  end.

(** Number.parseInt(s, 10); an integer of more than 20 digits is converted
    exactly, which ECMAScript allows and does not require. *)
Definition Number_parseInt10 (s : string) : number :=
  match StringToInteger10 s with
  | None => NaN
  | Some (negative, z) => of_integer (cond_Zopp negative z) negative
  end.

(** The binary64 form of a positive integer of at most 53 digits: the
    mantissa is moved up to 53 digits. *)
Definition aligned (s : bool) (p : positive) : number :=
  let d := Zpos (digits2_pos p) in
  S754_finite s (Pos.iter xO p (Z.to_pos (53 - d))) (d - 53).

(** The literals 10 and 95, and 5, 15, 20. *)
Definition n10 : number := S754_finite false 5629499534213120 (-49).
Definition n95 : number := S754_finite false 6685030696878080 (-46).
Definition n5 : number := S754_finite false 5629499534213120 (-50).
Definition n15 : number := S754_finite false 8444249301319680 (-49).
Definition n20 : number := S754_finite false 5629499534213120 (-48).

End JsArith.

Import JsArith.

(** [ContextLengthValue]: a number of rounds, or the string ['infinite']. *)
Inductive ContextLengthValue : Type :=
  | Rounds (n : number)
  | Infinite.

(** Strict equality [===] on these values: numbers compare by value (NaN
    equals nothing, the two zeros are equal). *)
Definition strictEquals (a b : ContextLengthValue) : bool :=
  match a, b with
  | Rounds x, Rounds y => SFeqb x y
  | Infinite, Infinite => true
  | _, _ => false
  end.

(** Array.prototype.indexOf: the first index whose element is strictly
    equal to the value, [-1] when there is none. *)
Fixpoint indexOfFrom (l : list ContextLengthValue) (v : ContextLengthValue) (i : Z) : Z :=
  match l with
  | [] => (-1)%Z
  | x :: l' => if strictEquals x v then i else indexOfFrom l' v (i + 1)%Z
  end.

Definition Array_indexOf (l : list ContextLengthValue) (v : ContextLengthValue) : Z :=
  indexOfFrom l v 0.

Section Slider.

(** [CONTEXT_LENGTH_OPTIONS] is imported from the chat atoms; the
    functions are stated for any array of options.  Slider positions are
    integers. *)
Variable CONTEXT_LENGTH_OPTIONS : list ContextLengthValue.

(** An index outside the array reads [undefined]. *)
Definition sliderPositionToValue (position : Z) : option ContextLengthValue :=
  if (position <? 0)%Z then None
  else CONTEXT_LENGTH_OPTIONS !! Z.to_nat position.

Definition valueToSliderPosition (value : ContextLengthValue) : Z :=
  let index := Array_indexOf CONTEXT_LENGTH_OPTIONS value in
  if (0 <=? index)%Z then index
  else (Z.of_nat (length CONTEXT_LENGTH_OPTIONS) - 2)%Z.

Definition maxSliderPosition : Z :=
  (Z.of_nat (length CONTEXT_LENGTH_OPTIONS) - 1)%Z.

End Slider.

(** The options the slider of the popover is drawn for: 0, 5, 10, 15 and
    20 rounds, and infinite. *)
Definition slider_options : list ContextLengthValue :=
  [Rounds zero; Rounds n5; Rounds n10; Rounds n15; Rounds n20; Infinite].

(** The threshold is a percentage between 10 and 95. *)
Definition threshold_in_range (t : number) : Prop :=
  le n10 t = true ∧ le t n95 = true.

(** [handleThresholdChange]: the new value of the threshold atom, given
    the text of the input and the value the atom holds. *)
Definition handleThresholdChange (value : string) (infiniteThreshold : number) : number :=
  let parsed := Number_parseInt10 value in
  if negb (Number_isFinite parsed) then infiniteThreshold
  else
    let clamped := Math_min n95 (Math_max n10 parsed) in
    clamped.

(** ** The ask-user banner *)

Module AskUserBanner.

(** Array.prototype.join on strings. *)
Fixpoint Array_join (sep : string) (l : list string) : string :=
  match l with
  | [] => ""
  | [x] => x
  | x :: l' => x ++ sep ++ Array_join sep l'
  end.

(** Array.prototype.includes on strings. *)
Definition Array_includes (l : list string) (x : string) : bool :=
  bool_decide (x ∈ l).

(** [String(i)] for an index: its decimal digits. *)
Definition String_of_index (i : nat) : string := pretty i.

(** [interface QuestionAnswer] *)
Record QuestionAnswer : Type := {
  selected : list string;
  customText : string;
  showCustom : bool
}.

(** Of a question, the functions below read [multiSelect] only. *)
Record AskUserQuestion : Type := {
  multiSelect : bool
}.

(** [getAnswer]: the answer kept for a question, or the empty one. *)
Definition getAnswer (answers : gmap nat QuestionAnswer) (idx : nat) : QuestionAnswer :=
  default {| selected := []; customText := ""; showCustom := false |}
          (answers !! idx).

(** [updateAnswer]: the function handed to [setAnswers].  The previous
    answer is read from [answers], the state the component was rendered
    with; the entry is written into a copy of [prev], the state the
    update is applied to. *)
Definition updateAnswer (answers : gmap nat QuestionAnswer) (idx : nat)
    (updater : QuestionAnswer → QuestionAnswer)
    (prev : gmap nat QuestionAnswer) : gmap nat QuestionAnswer :=
  <[idx := updater (getAnswer answers idx)]> prev.

(** The updater of [toggleOption]. *)
Definition toggleOptionUpdater (question : AskUserQuestion) (label : string)
    (prev : QuestionAnswer) : QuestionAnswer :=
  if multiSelect question then
    let exists_ := Array_includes (selected prev) label in
    {| selected := if exists_
                   then filter (λ s, s ≠ label) (selected prev)
                   else selected prev ++ [label];
       showCustom := false;
       customText := "" |}
  else
    {| selected := [label];
       showCustom := false;
       customText := "" |}.

Definition toggleOption (answers : gmap nat QuestionAnswer) (questionIdx : nat)
    (question : AskUserQuestion) (label : string) :
    gmap nat QuestionAnswer → gmap nat QuestionAnswer :=
  updateAnswer answers questionIdx (toggleOptionUpdater question label).

(** The updater of [toggleCustom]. *)
Definition toggleCustomUpdater (prev : QuestionAnswer) : QuestionAnswer :=
  {| selected := if showCustom prev then selected prev else [];
     customText := customText prev;
     showCustom := negb (showCustom prev) |}.

Definition toggleCustom (answers : gmap nat QuestionAnswer) (questionIdx : nat) :
    gmap nat QuestionAnswer → gmap nat QuestionAnswer :=
  updateAnswer answers questionIdx toggleCustomUpdater.

(** [onCustomTextChange] of a question card. *)
Definition onCustomTextChange (answers : gmap nat QuestionAnswer) (qIdx : nat)
    (text : string) : gmap nat QuestionAnswer → gmap nat QuestionAnswer :=
  updateAnswer answers qIdx
    (λ prev, {| selected := selected prev;
                customText := text;
                showCustom := showCustom prev |}).

(** The body of the loop of [handleSubmit]: what is written under
    [String(i)] for one answer, if anything. *)
Definition answerText (answer : QuestionAnswer) : option string :=
  if showCustom answer && truthy (trim (customText answer))
  then Some (trim (customText answer))
  else if (0 <? length (selected answer))%nat
       then Some (Array_join ", " (selected answer))
       else None.

(** The loop of [handleSubmit] over [i = 0 .. n - 1], started from the
    record [acc]. *)
Definition buildAnswers (answers : gmap nat QuestionAnswer) (n : nat)
    (acc : gmap string string) : gmap string string :=
  fold_left (λ rec i,
               match answerText (getAnswer answers i) with
               | Some text => <[String_of_index i := text]> rec
               | None => rec
               end)
            (seq 0 n) acc.

(** [answersRecord] as [handleSubmit] sends it. *)
Definition answersRecord (answers : gmap nat QuestionAnswer)
    (questions : list AskUserQuestion) : gmap string string :=
  buildAnswers answers (length questions) ∅.

(** [hasValidAnswers] *)
Definition hasValidAnswers (answers : gmap nat QuestionAnswer)
    (questions : list AskUserQuestion) : bool :=
  existsb (λ idx,
             let answer := getAnswer answers idx in
             (0 <? length (selected answer))%nat
             || showCustom answer
                && (0 <? String.length (trim (customText answer)))%nat)
          (seq 0 (length questions)).

(** What the user does on the cards of the request on display.  Each
    handler runs in the render of the current state, so that [answers]
    and [prev] of [updateAnswer] are the same map; cards exist for the
    questions of the request only. *)
Inductive event : Type :=
  | ClickOption (qIdx : nat) (label : string)
  | ClickCustom (qIdx : nat)
  | TypeCustom (qIdx : nat) (text : string).

Definition handle (questions : list AskUserQuestion) (e : event)
    (answers : gmap nat QuestionAnswer) : gmap nat QuestionAnswer :=
  match e with
  | ClickOption qIdx label =>
      match questions !! qIdx with
      | Some question => toggleOption answers qIdx question label answers
      | None => answers
      end
  | ClickCustom qIdx =>
      match questions !! qIdx with
      | Some _ => toggleCustom answers qIdx answers
      | None => answers
      end
  | TypeCustom qIdx text =>
      match questions !! qIdx with
      | Some _ => onCustomTextChange answers qIdx text answers
      | None => answers
      end
  end.

Definition handleAll (questions : list AskUserQuestion) (es : list event)
    (answers : gmap nat QuestionAnswer) : gmap nat QuestionAnswer :=
  fold_left (λ a e, handle questions e a) es answers.

(** What the cards keep for every question, whatever the user does:
    the custom input and the selected options exclude each other, no label
    is selected twice, and a question without [multiSelect] has at most
    one selected label. *)
Definition consistent (questions : list AskUserQuestion) (idx : nat)
    (a : QuestionAnswer) : Prop :=
  (showCustom a = true → selected a = [])
  ∧ NoDup (selected a)
  ∧ (∀ q, questions !! idx = Some q → multiSelect q = false →
          (length (selected a) ≤ 1)%nat).

Section Queue.

(** The requests of the queue carry a [requestId]; the type of the
    requests and of their identifiers is declared elsewhere, and [!==] on
    identifiers is taken to be plain inequality, as it is on strings. *)
Context {Request RequestId : Type} `{EqDecision RequestId}.
Variable requestId : Request → RequestId.

(** [requests[0] ?? null] *)
Definition currentRequest (requests : list Request) : option Request :=
  head requests.

(** The function handed to [setRequests] once the request is answered. *)
Definition removeAnswered (request : Request) (prev : list Request) : list Request :=
  filter (λ r, requestId r ≠ requestId request) prev.

End Queue.

End AskUserBanner.

(** * Properties *)

(** ** Strings *)

Section StringFacts.

Lemma truthy_true (s : string) : truthy s = true ↔ s ≠ "".
Proof. destruct s; simpl; split; intros; congruence. Qed.

Lemma truthy_false (s : string) : truthy s = false ↔ s = "".
Proof. destruct s; simpl; split; intros; congruence. Qed.

(** Lower-casing neither creates nor removes white space. *)
Lemma isWhiteSpace_toLowerUnit (c : ascii) :
  isWhiteSpace (toLowerUnit c) = isWhiteSpace c.
Proof. destruct c as [[] [] [] [] [] [] [] []]; reflexivity. Qed.

Lemma trimStart_app_ws (l s : string) :
  allWhiteSpace l = true → trimStart (l ++ s) = trimStart s.
Proof.
  induction l as [|c l IH]; simpl; [done|].
  intros [Hc Hl]%andb_true_iff. rewrite Hc. auto.
Qed.

Lemma trimEnd_ws (r : string) : allWhiteSpace r = true → trimEnd r = "".
Proof.
  induction r as [|c r IH]; simpl; [done|].
  intros [Hc Hr]%andb_true_iff. rewrite IH, Hc; done.
Qed.

Lemma trimEnd_app_ws (s r : string) :
  allWhiteSpace r = true → trimEnd (s ++ r) = trimEnd s.
Proof.
  intros Hr. induction s as [|c s IH]; simpl.
  - by apply trimEnd_ws.
  - by rewrite IH.
Qed.

Lemma trimStart_ws (l : string) : allWhiteSpace l = true → trimStart l = "".
Proof.
  induction l as [|c l IH]; simpl; [done|].
  intros [Hc Hl]%andb_true_iff. rewrite Hc. auto.
Qed.

(** White space appended to a string survives [trimStart] as white
    space, or disappears with the rest. *)
Lemma trimStart_app_r (s r : string) :
  allWhiteSpace r = true →
  ∃ r', allWhiteSpace r' = true ∧ trimStart (s ++ r) = trimStart s ++ r'.
Proof.
  intros Hr. induction s as [|c s IH]; simpl.
  - exists "". by rewrite trimStart_ws.
  - destruct (isWhiteSpace c); [done|]. by exists r.
Qed.

Lemma trim_padded (l a r : string) :
  allWhiteSpace l = true → allWhiteSpace r = true →
  trim (l ++ a ++ r) = trim a.
Proof.
  intros Hl Hr. unfold trim. rewrite trimStart_app_ws by done.
  destruct (trimStart_app_r a r Hr) as (r' & Hr' & ->).
  by apply trimEnd_app_ws.
Qed.

Lemma toLowerCase_trimStart (s : string) :
  toLowerCase (trimStart s) = trimStart (toLowerCase s).
Proof.
  induction s as [|c s IH]; simpl; [done|].
  rewrite isWhiteSpace_toLowerUnit. by destruct (isWhiteSpace c).
Qed.

Lemma toLowerCase_trimEnd (s : string) :
  toLowerCase (trimEnd s) = trimEnd (toLowerCase s).
Proof.
  induction s as [|c s IH]; simpl; [done|].
  rewrite <- IH, isWhiteSpace_toLowerUnit.
  destruct (trimEnd s); simpl; [|done]. by destruct (isWhiteSpace c).
Qed.

Lemma toLowerCase_trim (s : string) :
  toLowerCase (trim s) = trim (toLowerCase s).
Proof. unfold trim. by rewrite toLowerCase_trimEnd, toLowerCase_trimStart. Qed.

Lemma normalizeModelId_padded (l a r : string) :
  allWhiteSpace l = true → allWhiteSpace r = true →
  normalizeModelId (l ++ a ++ r) = normalizeModelId a.
Proof. intros. unfold normalizeModelId. by rewrite trim_padded. Qed.

Lemma normalizeModelId_case (a b : string) :
  eq_up_to_case a b → normalizeModelId a = normalizeModelId b.
Proof.
  unfold eq_up_to_case, normalizeModelId. intros H.
  by rewrite !toLowerCase_trim, H.
Qed.

(** Identifiers equal up to case and padding have the same key. *)
Lemma normalizeModelId_equiv (m m' : string) :
  eq_up_to_case_and_padding m m' → normalizeModelId m = normalizeModelId m'.
Proof.
  intros [l r l' r' a b Hl Hr Hl' Hr' Hab].
  rewrite !normalizeModelId_padded by done. by apply normalizeModelId_case.
Qed.

Lemma normalizeModelId_empty : normalizeModelId "" = "".
Proof. reflexivity. Qed.

Lemma trimStart_empty (s : string) : trimStart s = "" ↔ allWhiteSpace s = true.
Proof.
  split; [|apply trimStart_ws].
  induction s as [|c s IH]; simpl; [done|].
  destruct (isWhiteSpace c); [done | discriminate].
Qed.

Lemma trimEnd_not_ws (c : ascii) (s : string) :
  isWhiteSpace c = false → trimEnd (trimStart (String c s)) ≠ "".
Proof.
  intros Hc. simpl. rewrite Hc. simpl.
  destruct (trimEnd s); [by rewrite Hc | done].
Qed.

Lemma trim_empty (s : string) : trim s = "" ↔ allWhiteSpace s = true.
Proof.
  unfold trim. split; [|by intros ->%trimStart_ws].
  induction s as [|c s IH]; [done|].
  destruct (isWhiteSpace c) eqn:Hc.
  - simpl. rewrite Hc. simpl. done.
  - intros H. by apply trimEnd_not_ws in H.
Qed.

(** The normalized key is empty exactly when the identifier holds nothing
    but white space. *)
Lemma normalizeModelId_empty_iff (modelId : string) :
  normalizeModelId modelId = "" ↔ allWhiteSpace modelId = true.
Proof.
  rewrite <- trim_empty. unfold normalizeModelId.
  by destruct (trim modelId).
Qed.

End StringFacts.

(** ** Numbers *)

Section NumberFacts.

Local Open Scope Z_scope.

(** The guard [contextWindow <= 0] lets exactly the windows above zero
    through, among the finite ones. *)
Lemma le_zero_false (w : number) :
  Number_isFinite w = true → lt zero w = true → le w zero = false.
Proof. by destruct w as [[]|[]| |[] m e]. Qed.

Lemma valid_window_guard (w : number) :
  valid_window w → negb (Number_isFinite w) || le w zero = false.
Proof. intros [Hf Hp]. by rewrite Hf, le_zero_false. Qed.

Lemma invalid_window_guard (w : number) :
  invalid_window w → negb (Number_isFinite w) || le w zero = true.
Proof. intros [-> | ->]; [done | by rewrite orb_true_r]. Qed.

Lemma valid_window_positive (w : number) :
  valid_window w → ∃ m e, w = S754_finite false m e.
Proof. intros [Hf Hp]. destruct w as [[]|[]| |[] m e]; try done. eauto. Qed.

Lemma digits2_bounds (p : positive) :
  2 ^ (Zpos (digits2_pos p) - 1) ≤ Zpos p < 2 ^ Zpos (digits2_pos p).
Proof.
  induction p as [p IH|p IH|]; simpl digits2_pos.
  - rewrite Pos2Z.inj_succ, Z.pow_succ_r by lia.
    replace (Z.succ (Zpos (digits2_pos p)) - 1) with (Z.succ (Zpos (digits2_pos p) - 1)) by lia.
    rewrite Z.pow_succ_r by lia. lia.
  - rewrite Pos2Z.inj_succ, Z.pow_succ_r by lia.
    replace (Z.succ (Zpos (digits2_pos p)) - 1) with (Z.succ (Zpos (digits2_pos p) - 1)) by lia.
    rewrite Z.pow_succ_r by lia. lia.
  - simpl. lia.
Qed.

Lemma iter_xO_mul (p d : positive) : Zpos (Pos.iter xO p d) = Zpos p * 2 ^ Zpos d.
Proof.
  induction d as [|d IH] using Pos.peano_ind.
  - simpl. lia.
  - rewrite Pos.iter_succ, Pos2Z.inj_xO, IH, Pos2Z.inj_succ, Z.pow_succ_r by lia. lia.
Qed.

Lemma digits2_iter_xO (p d : positive) :
  Zpos (digits2_pos (Pos.iter xO p d)) = Zpos (digits2_pos p) + Zpos d.
Proof.
  induction d as [|d IH] using Pos.peano_ind.
  - simpl. lia.
  - rewrite Pos.iter_succ. simpl digits2_pos. lia.
Qed.

End NumberFacts.
Section FloorFacts.

Local Open Scope Z_scope.

Lemma fexp_small (d : Z) : 0 < d → fexp prec emax d = d - 53.
Proof. unfold fexp, emin, prec, emax. lia. Qed.

Lemma shr_fexp_canonical (m : positive) (e : Z) :
  Zpos (digits2_pos m) = 53 → -1074 ≤ e →
  shr_fexp prec emax (Zpos m) e loc_Exact =
    ({| shr_m := Zpos m; shr_r := false; shr_s := false |}, e).
Proof.
  intros Hd He. unfold shr_fexp. simpl Zdigits2. rewrite Hd.
  unfold fexp, emin, prec, emax.
  replace (Z.max (53 + e - 53) (3 - 1024 - 53) - e) with 0 by lia.
  reflexivity.
Qed.

(** Rounding an integer of fewer than 53 digits to binary64 only aligns
    its mantissa to 53 digits: the value is kept. *)
Lemma binary_normalize_small (p : positive) :
  let d := Zpos (digits2_pos p) in
  d < 53 →
  binary_normalize prec emax (Zpos p) 0 false =
    S754_finite false (Pos.iter xO p (Z.to_pos (53 - d))) (d - 53).
Proof.
  intros d Hd. unfold binary_normalize, binary_round.
  rewrite Z.add_0_r, fexp_small by done. fold d.
  unfold shl_align.
  replace (d - 53 - 0) with (Zneg (Z.to_pos (53 - d))) by lia.
  unfold binary_round_aux.
  rewrite shr_fexp_canonical; cycle 1.
  { rewrite digits2_iter_xO. fold d. lia. }
  { lia. }
  cbn [shr_m loc_of_shr_record round_nearest_even].
  rewrite shr_fexp_canonical; cycle 1.
  { rewrite digits2_iter_xO. fold d. lia. }
  { lia. }
  cbn [shr_m]. unfold emax, prec.
  destruct (Z.leb_spec (d - 53) (1024 - 53)); [done | lia].
Qed.

Lemma binary64_mantissa (s : bool) (m : positive) (e : Z) :
  is_binary64 (S754_finite s m e) = true → Zpos m < 2 ^ 53.
Proof.
  unfold is_binary64, valid_binary, bounded, canonical_mantissa.
  intros [Hc _]%andb_true_iff. apply Z.eqb_eq in Hc.
  unfold fexp, emin, prec, emax in Hc.
  pose proof (digits2_bounds m) as [_ Hm].
  assert (2 ^ Zpos (digits2_pos m) ≤ 2 ^ 53) by (apply Z.pow_le_mono_r; lia).
  lia.
Qed.

(** [floorZ] is the floor: the quotient by the power of two. *)
Lemma floorZ_bounds (s : bool) (m : positive) (e : Z) :
  e < 0 →
  floorZ s m e * 2 ^ (- e) ≤ cond_Zopp s (Zpos m) < (floorZ s m e + 1) * 2 ^ (- e).
Proof.
  intros He. unfold floorZ. rewrite Z.shiftr_div_pow2 by lia.
  assert (0 < 2 ^ (- e)) as Hpos by (apply Z.pow_pos_nonneg; lia).
  pose proof (Z.div_mod (cond_Zopp s (Zpos m)) (2 ^ (- e))) as Hdm.
  pose proof (Z.mod_pos_bound (cond_Zopp s (Zpos m)) (2 ^ (- e)) Hpos).
  lia.
Qed.

(** On a positive binary64 value, [Math_floor] returns a binary64 value
    that denotes the integer floor of the argument. *)
Lemma Math_floor_positive (m : positive) (e : Z) :
  let x := S754_finite false m e in
  is_binary64 x = true →
  ∃ z, floor_of x z ∧ 0 ≤ z ∧
       to_integer (Math_floor x) = Some z ∧
       is_binary64 (Math_floor x) = true.
Proof.
  intros x Hx. pose proof (binary64_mantissa _ _ _ Hx) as Hm.
  unfold x in *. unfold Math_floor, floor_of.
  destruct (0 <=? e) eqn:Hb.
  { apply Z.leb_le in Hb as He.
    exists (Zpos m * 2 ^ e). unfold to_integer. rewrite Hb. simpl cond_Zopp.
    repeat split; [|done].
    apply Z.mul_nonneg_nonneg; [lia | by apply Z.pow_nonneg]. }
  apply Z.leb_gt in Hb as He.
  pose proof (floorZ_bounds false m e He) as Hfl. simpl cond_Zopp in Hfl.
  assert (0 < 2 ^ (- e)) as Hpos by (apply Z.pow_pos_nonneg; lia).
  assert (2 ≤ 2 ^ (- e)) as Htwo.
  { change 2 with (2 ^ 1) at 1. apply Z.pow_le_mono_r; lia. }
  exists (floorZ false m e). simpl cond_Zopp.
  destruct (floorZ false m e) as [|p|p] eqn:Hq.
  - repeat split; [lia | lia | done].
  - assert (Zpos p < 2 ^ 52) as Hp by (change (2 ^ 53) with (2 * 2 ^ 52) in Hm; nia).
    assert (Zpos (digits2_pos p) < 53) as Hd.
    { pose proof (digits2_bounds p) as [Hlo _].
      destruct (Z.lt_ge_cases (Zpos (digits2_pos p)) 53); [done|].
      assert (2 ^ 52 ≤ 2 ^ (Zpos (digits2_pos p) - 1)) by (apply Z.pow_le_mono_r; lia).
      lia. }
    rewrite binary_normalize_small by done.
    set (d := Zpos (digits2_pos p)) in *.
    assert (0 < 2 ^ (53 - d)) by (apply Z.pow_pos_nonneg; lia).
    repeat split; [lia | lia | lia | |].
    + unfold to_integer.
      destruct (Z.leb_spec 0 (d - 53)); [lia|].
      rewrite iter_xO_mul, Z2Pos.id by lia.
      replace (- (d - 53)) with (53 - d) by lia.
      by rewrite Z.mod_mul, Z.div_mul by lia.
    + unfold is_binary64, valid_binary, bounded, canonical_mantissa.
      rewrite digits2_iter_xO, Z2Pos.id by lia. fold d.
      apply andb_true_iff; split.
      * apply Z.eqb_eq. unfold fexp, emin, prec, emax. lia.
      * apply Z.leb_le. unfold prec, emax. lia.
  - exfalso. assert ((Z.neg p + 1) * 2 ^ (- e) ≤ 0) by nia. lia.
Qed.

(** [Math.floor(100.9)] is 100, [Math.floor(0.5)] is +0 and
    [Math.floor(-0.5)] is -1. *)
Example Math_floor_100_9 : Math_floor n100_9 = n100 ∧ to_integer n100 = Some 100.
Proof. split; reflexivity. Qed.

Example Math_floor_0_5 : Math_floor n0_5 = zero.
Proof. reflexivity. Qed.

Example Math_floor_neg_0_5 :
  to_integer (Math_floor (S754_finite true 4503599627370496 (-53))) = Some (-1).
Proof. reflexivity. Qed.

End FloorFacts.

(** ** The two functions, one call at a time *)

Section CallFacts.

Implicit Types (σ : gmap string number) (w : number).

Lemma set_valid (modelId : string) w σ :
  truthy modelId = true → valid_window w →
  setModelContextWindow modelId w σ
  = (tt, <[normalizeModelId modelId := Math_floor w]> σ).
Proof.
  intros Hid Hw. unfold setModelContextWindow.
  by rewrite Hid, (valid_window_guard _ Hw).
Qed.

Lemma set_falsy (modelId : string) w σ :
  truthy modelId = false → setModelContextWindow modelId w σ = (tt, σ).
Proof. intros Hid. unfold setModelContextWindow. by rewrite Hid. Qed.

Lemma set_invalid (modelId : string) w σ :
  invalid_window w → setModelContextWindow modelId w σ = (tt, σ).
Proof.
  intros Hw. unfold setModelContextWindow.
  rewrite (invalid_window_guard _ Hw). by destruct (truthy modelId).
Qed.

(** A window is let through or rejected; there is no third case. *)
Lemma window_cases w : valid_window w ∨ invalid_window w.
Proof.
  unfold valid_window, invalid_window.
  destruct w as [[]|[]| |[] m e]; simpl; auto.
Qed.

Lemma get_truthy (modelId : string) σ :
  truthy modelId = true →
  getModelContextWindow modelId σ = (σ !! normalizeModelId modelId, σ).
Proof. intros Hid. unfold getModelContextWindow. by rewrite Hid. Qed.

Lemma get_falsy (modelId : string) σ :
  truthy modelId = false → getModelContextWindow modelId σ = (None, σ).
Proof. intros Hid. unfold getModelContextWindow. by rewrite Hid. Qed.

Lemma get_state (modelId : string) σ :
  state_after (getModelContextWindow modelId) σ = σ.
Proof.
  unfold state_after.
  destruct (truthy modelId) eqn:Hid; [by rewrite get_truthy | by rewrite get_falsy].
Qed.

(** A write changes at most the entry of its own key. *)
Lemma set_other_key (modelId : string) w σ (k : string) :
  k ≠ normalizeModelId modelId →
  state_after (setModelContextWindow modelId w) σ !! k = σ !! k.
Proof.
  intros Hk. unfold state_after.
  destruct (truthy modelId) eqn:Hid; [|by rewrite set_falsy].
  destruct (window_cases w) as [Hw|Hw]; [|by rewrite set_invalid].
  rewrite set_valid by done. simpl. by rewrite lookup_insert_ne.
Qed.

Lemma run_cons (c : call) (cs : list call) σ :
  state_after (run (c :: cs)) σ = state_after (run cs) (state_after (perform c) σ).
Proof.
  unfold state_after. simpl. unfold mbind, Cache_bind.
  destruct (perform c σ) as [o σ1]. simpl.
  by destruct (run cs σ1) as [os σ2].
Qed.

Lemma perform_record (modelId : string) w σ :
  state_after (perform (Record modelId w)) σ
  = state_after (setModelContextWindow modelId w) σ.
Proof.
  unfold state_after. simpl. unfold mbind, Cache_bind.
  by destruct (setModelContextWindow modelId w σ).
Qed.

Lemma perform_lookup (modelId : string) σ :
  state_after (perform (Lookup modelId)) σ = σ.
Proof.
  rewrite <- (get_state modelId σ) at 2.
  unfold state_after. simpl. unfold mbind, Cache_bind.
  by destruct (getModelContextWindow modelId σ).
Qed.

Lemma run_length (cs : list call) σ : length (value_of (run cs) σ) = length cs.
Proof.
  unfold value_of. revert σ. induction cs as [|c cs IH]; intros σ; [done|].
  simpl. unfold mbind, Cache_bind.
  destruct (perform c σ) as [o σ1]. specialize (IH σ1).
  destruct (run cs σ1) as [os σ2]. simpl in *. by rewrite IH.
Qed.

(** Calls that never write a key leave its entry as it was. *)
Lemma run_never_recorded (modelId : string) (cs : list call) σ :
  never_recorded modelId cs →
  state_after (run cs) σ !! normalizeModelId modelId = σ !! normalizeModelId modelId.
Proof.
  intros Hcs. revert σ. induction Hcs as [|c cs Hc _ IH]; intros σ; [done|].
  rewrite run_cons, IH. destruct c as [modelId' w|modelId'].
  - rewrite perform_record. by apply set_other_key.
  - by rewrite perform_lookup.
Qed.

(** An invariant of the entries: a property that holds of what every
    accepted write of a sequence stores, and of the entries present
    before, holds of every entry afterwards. *)
Lemma run_invariant (Q : string → number → Prop) (cs : list call) σ :
  (∀ modelId w, Record modelId w ∈ cs → truthy modelId = true → valid_window w →
                Q (normalizeModelId modelId) (Math_floor w)) →
  (∀ k v, σ !! k = Some v → Q k v) →
  ∀ k v, state_after (run cs) σ !! k = Some v → Q k v.
Proof.
  revert σ. induction cs as [|c cs IH]; intros σ Hcs Hσ; [done|].
  intros k v. rewrite run_cons. apply IH.
  { intros modelId w Hin. apply Hcs. by right. }
  clear IH k v. intros k v.
  destruct c as [modelId w|modelId]; [|rewrite perform_lookup; by apply Hσ].
  rewrite perform_record. unfold state_after.
  destruct (truthy modelId) eqn:Hid; [|rewrite set_falsy by done; by apply Hσ].
  destruct (window_cases w) as [Hw|Hw]; [|rewrite set_invalid by done; by apply Hσ].
  rewrite set_valid by done. simpl.
  destruct (decide (normalizeModelId modelId = k)) as [<-|Hne].
  - rewrite lookup_insert_eq. intros [= <-]. apply Hcs; [by left|done..].
  - rewrite lookup_insert_ne by done. by apply Hσ.
Qed.

(** What the cache holds was put there by a write that passed the
    guards: a key is the normalized form of a non-empty identifier and a
    value is the floor of a finite window above zero. *)
Lemma stored_entries (cs : list call) (k : string) (v : number) :
  state_after (run cs) modelContextWindowCache !! k = Some v →
  ∃ modelId w, Record modelId w ∈ cs ∧ truthy modelId = true ∧ valid_window w ∧
               k = normalizeModelId modelId ∧ v = Math_floor w.
Proof.
  apply (run_invariant
           (λ k v, ∃ modelId w, Record modelId w ∈ cs ∧ truthy modelId = true ∧
                                valid_window w ∧
                                k = normalizeModelId modelId ∧ v = Math_floor w)).
  - intros modelId w Hin Hid Hw. by exists modelId, w.
  - intros k' v'. unfold modelContextWindowCache. by rewrite lookup_empty.
Qed.

(** When the windows handed in are binary64 values, every stored value is
    a binary64 value that denotes an integer, and this integer is not
    negative. *)
Lemma stored_values_integral (cs : list call) (k : string) (v : number) :
  Forall (λ c, match c with
               | Record _ w => is_binary64 w = true
               | Lookup _ => True
               end) cs →
  state_after (run cs) modelContextWindowCache !! k = Some v →
  ∃ z : Z, to_integer v = Some z ∧ (0 ≤ z)%Z ∧ is_binary64 v = true.
Proof.
  intros Hcs Hv.
  destruct (stored_entries cs k v Hv) as (modelId & w & Hin & _ & Hw & _ & ->).
  rewrite Forall_forall in Hcs. specialize (Hcs _ Hin). simpl in Hcs.
  destruct (valid_window_positive w Hw) as (mw & ew & ->).
  destruct (Math_floor_positive mw ew Hcs) as (z & _ & Hz & Hint & Hb).
  by exists z.
Qed.

End CallFacts.

(** ** The contract of the cache *)

(** C1: for a non-empty [modelId] and a finite [contextWindow] above zero,
    [getModelContextWindow modelId] right after
    [setModelContextWindow modelId contextWindow] returns
    floor(contextWindow), whatever the cache held before: it returns a
    Number [v] that denotes the integer [z] with
    [z <= contextWindow < z + 1]. *)
Theorem lookup_after_record (modelId : string) (contextWindow : number)
    (σ : gmap string number) :
  truthy modelId = true →
  valid_window contextWindow →
  is_binary64 contextWindow = true →
  ∃ (v : number) (z : Z),
    value_of (getModelContextWindow modelId)
             (state_after (setModelContextWindow modelId contextWindow) σ)
    = Some v
    ∧ to_integer v = Some z
    ∧ floor_of contextWindow z.
Proof.
  intros Hid Hw Hb. destruct (valid_window_positive _ Hw) as (m & e & ->).
  destruct (Math_floor_positive m e Hb) as (z & Hfl & _ & Hint & _).
  exists (Math_floor (S754_finite false m e)), z. split; [|done].
  unfold value_of, state_after.
  rewrite set_valid, get_truthy by done. simpl. apply lookup_insert_eq.
Qed.

Lemma lookup_after_record_witness :
  ∃ (v : number) (z : Z),
    value_of (getModelContextWindow "GPT-4 ")
             (state_after (setModelContextWindow "GPT-4 " n100_9) modelContextWindowCache)
    = Some v
    ∧ to_integer v = Some z
    ∧ floor_of n100_9 z.
Proof.
  exact (lookup_after_record "GPT-4 " n100_9 modelContextWindowCache
           eq_refl (conj eq_refl eq_refl) eq_refl).
Defined.

(** C2: last write wins.  After two writes that pass the guards and share
    a normalized key, a lookup returns the floor of the second window, and
    the cache is the one the second write alone would have produced: the
    first value is replaced without a trace. *)
Theorem last_write_wins (m m' : string) (v1 v2 : number) (σ : gmap string number) :
  truthy m = true → truthy m' = true →
  normalizeModelId m = normalizeModelId m' →
  valid_window v1 → valid_window v2 →
  let σ2 := state_after (setModelContextWindow m' v2)
              (state_after (setModelContextWindow m v1) σ) in
  value_of (getModelContextWindow m) σ2 = Some (Math_floor v2)
  ∧ σ2 = state_after (setModelContextWindow m' v2) σ.
Proof.
  intros Hm Hm' Hk Hv1 Hv2. unfold value_of, state_after.
  rewrite (set_valid m), !(set_valid m'), get_truthy by done. simpl.
  rewrite <- Hk. split; [apply lookup_insert_eq | apply insert_insert_eq].
Qed.

Lemma last_write_wins_witness :
  let σ2 := state_after (setModelContextWindow "m" n200)
              (state_after (setModelContextWindow "m" n100) modelContextWindowCache) in
  value_of (getModelContextWindow "m") σ2 = Some n200
  ∧ σ2 = state_after (setModelContextWindow "m" n200) modelContextWindowCache.
Proof.
  exact (last_write_wins "m" "m" n100 n200 modelContextWindowCache
           eq_refl eq_refl eq_refl (conj eq_refl eq_refl) (conj eq_refl eq_refl)).
Defined.

(** C3, as stated, fails: [" "] passes the guard of
    [setModelContextWindow] and is stored under the key [""], the empty
    identifier equals it up to surrounding white space, and
    [getModelContextWindow ""] answers [undefined]. *)
Lemma lookup_variant_of_blank_id :
  ¬ (∀ (m m' : string) (v : number) (σ : gmap string number),
       truthy m = true → valid_window v →
       eq_up_to_case_and_padding m m' →
       value_of (getModelContextWindow m')
                (state_after (setModelContextWindow m v) σ)
       = Some (Math_floor v)).
Proof.
  intros H.
  specialize (H " " "" n50 modelContextWindowCache eq_refl (conj eq_refl eq_refl)).
  assert (eq_up_to_case_and_padding " " "") as Heq.
  { exact (padded " " "" "" "" "" "" eq_refl eq_refl eq_refl eq_refl eq_refl). }
  specialize (H Heq). discriminate H.
Qed.

(** C3, amended: [setModelContextWindow] and [getModelContextWindow]
    normalize alike, so after a write that passes the guards and whose
    normalized key is not empty, a lookup under any identifier equal to the
    written one up to case and surrounding white space returns the stored
    value. *)
Theorem lookup_normalized_variants (m m' : string) (v : number)
    (σ : gmap string number) :
  truthy m = true → valid_window v →
  normalizeModelId m ≠ "" →
  eq_up_to_case_and_padding m m' →
  value_of (getModelContextWindow m')
           (state_after (setModelContextWindow m v) σ)
  = Some (Math_floor v).
Proof.
  intros Hm Hv Hk Heq. apply normalizeModelId_equiv in Heq.
  assert (truthy m' = true) as Hm'.
  { apply truthy_true. intros ->. by rewrite Heq in Hk. }
  unfold value_of, state_after. rewrite set_valid, get_truthy by done. simpl.
  rewrite <- Heq. apply lookup_insert_eq.
Qed.

Lemma lookup_normalized_variants_witness :
  value_of (getModelContextWindow "  model-x  ")
           (state_after (setModelContextWindow "Model-X" n50) modelContextWindowCache)
  = Some n50.
Proof.
  refine (lookup_normalized_variants "Model-X" "  model-x  " n50 modelContextWindowCache
            eq_refl (conj eq_refl eq_refl) _ _).
  - discriminate.
  - exact (padded "" "" "  " "  " "Model-X" "model-x"
             eq_refl eq_refl eq_refl eq_refl eq_refl).
Defined.

(** C4: a window that is not finite, or is at most zero, makes
    [setModelContextWindow] a no-op for every identifier: it returns
    normally and the cache, with any value it held for the identifier, is
    exactly what it was. *)
Theorem record_invalid_window_noop (modelId : string) (contextWindow : number)
    (σ : gmap string number) :
  invalid_window contextWindow →
  setModelContextWindow modelId contextWindow σ = (tt, σ).
Proof. apply set_invalid. Qed.

Lemma record_invalid_window_noop_witness :
  let σ := state_after (setModelContextWindow "m" n100) modelContextWindowCache in
  setModelContextWindow "m" zero σ = (tt, σ)
  ∧ setModelContextWindow "m" neg5 σ = (tt, σ)
  ∧ setModelContextWindow "m" NaN σ = (tt, σ)
  ∧ setModelContextWindow "m" Infinity σ = (tt, σ).
Proof.
  intros σ.
  exact (conj (record_invalid_window_noop "m" zero σ (or_intror eq_refl))
        (conj (record_invalid_window_noop "m" neg5 σ (or_intror eq_refl))
        (conj (record_invalid_window_noop "m" NaN σ (or_introl eq_refl))
              (record_invalid_window_noop "m" Infinity σ (or_introl eq_refl))))).
Defined.

(** C5 does not hold of the code: a window strictly between 0 and 1 is
    finite and above zero, so it passes the guard, and its floor, +0, is
    stored and returned by the next lookup.  Here the window is 0.5. *)
Theorem fractional_window_stores_zero :
  is_binary64 n0_5 = true
  ∧ valid_window n0_5
  ∧ value_of (run [Record "m" n0_5; Lookup "m"]) modelContextWindowCache
    = [Void; Returned (Some zero)]
  ∧ ¬ positive_integer zero.
Proof.
  split; [reflexivity|]. split; [by split|]. split; [by vm_compute|].
  intros (z & Hz & Hpos). simpl in Hz. injection Hz as <-. lia.
Qed.

(** C6 does not hold of the code: an identifier of white space only is
    truthy, so it passes the guard, and it is stored under its normalized
    key, the empty string.  Here the identifier is one space. *)
Theorem blank_id_stores_empty_key :
  truthy " " = true
  ∧ state_after (run [Record " " n100]) modelContextWindowCache !! "" = Some n100.
Proof. split; [reflexivity | by vm_compute]. Qed.

(** C7: the value stored for a finite binary64 window above zero is the
    Number of its integer floor: there is an integer [z] with
    [z <= contextWindow < z + 1] that the result of [Math.floor] denotes,
    and this result is what the next lookup returns. *)
Theorem record_stores_floor (m : string) (w : number) (σ : gmap string number) :
  truthy m = true → valid_window w → is_binary64 w = true →
  ∃ z : Z,
    floor_of w z
    ∧ to_integer (Math_floor w) = Some z
    ∧ value_of (getModelContextWindow m) (state_after (setModelContextWindow m w) σ)
      = Some (Math_floor w).
Proof.
  intros Hm Hw Hb. destruct (valid_window_positive w Hw) as (mw & ew & ->).
  destruct (Math_floor_positive mw ew Hb) as (z & Hfl & _ & Hint & _).
  exists z. split; [done|]. split; [done|].
  unfold value_of, state_after. rewrite set_valid, get_truthy by done.
  simpl. apply lookup_insert_eq.
Qed.

Lemma record_stores_floor_witness :
  ∃ z : Z,
    floor_of n100_9 z
    ∧ to_integer (Math_floor n100_9) = Some z
    ∧ value_of (getModelContextWindow "m")
               (state_after (setModelContextWindow "m" n100_9) modelContextWindowCache)
      = Some (Math_floor n100_9).
Proof.
  exact (record_stores_floor "m" n100_9 modelContextWindowCache
           eq_refl (conj eq_refl eq_refl) eq_refl).
Defined.

(** C8: for an empty identifier [setModelContextWindow] returns normally
    without touching the cache, and [getModelContextWindow] returns
    [undefined] without reading it, whatever it holds. *)
Theorem empty_id_ignored (modelId : string) (contextWindow : number)
    (σ : gmap string number) :
  truthy modelId = false →
  setModelContextWindow modelId contextWindow σ = (tt, σ)
  ∧ getModelContextWindow modelId σ = (None, σ).
Proof. intros Hid. split; [by apply set_falsy | by apply get_falsy]. Qed.

Lemma empty_id_ignored_witness :
  let σ := state_after (run [Record " " n100; Record "m" n200]) modelContextWindowCache in
  setModelContextWindow "" n100 σ = (tt, σ)
  ∧ getModelContextWindow "" σ = (None, σ).
Proof. intros σ. exact (empty_id_ignored "" n100 σ eq_refl). Defined.

(** C9: [getModelContextWindow] only reads.  It leaves the cache exactly
    as it found it, so the lookups of a sequence of calls can be dropped
    without changing the cache the sequence ends in, nor what a later
    lookup returns. *)
Theorem lookup_pure (modelId : string) (σ : gmap string number) :
  state_after (getModelContextWindow modelId) σ = σ
  ∧ ∀ cs : list call,
      state_after (run cs) σ = state_after (run (List.filter is_record cs)) σ
      ∧ value_of (getModelContextWindow modelId) (state_after (run cs) σ)
        = value_of (getModelContextWindow modelId)
                   (state_after (run (List.filter is_record cs)) σ).
Proof.
  split; [apply get_state|]. intros cs.
  assert (state_after (run cs) σ = state_after (run (List.filter is_record cs)) σ) as H.
  { revert σ. induction cs as [|c cs IH]; intros σ; [done|].
    rewrite run_cons. destruct c as [id w|id]; simpl List.filter.
    - by rewrite run_cons, IH.
    - by rewrite perform_lookup, IH. }
  by rewrite H.
Qed.

(** The run-time reading agrees with the typed one on a string and a
    number: the call completes normally, with the same result and the
    same cache. *)
Lemma runtime_set_typed (modelId : string) (w : number) (σ : gmap string number) :
  Runtime.setModelContextWindow (Runtime.Str modelId) (Runtime.Num w) σ
  = (Runtime.Normal tt, state_after (setModelContextWindow modelId w) σ).
Proof.
  unfold Runtime.setModelContextWindow, state_after, setModelContextWindow.
  cbn [Runtime.ToBoolean Runtime.normalizeModelId].
  destruct (truthy modelId); [|reflexivity].
  cbn [negb].
  destruct (negb (Number_isFinite w) || le w zero); reflexivity.
Qed.

Lemma runtime_get_typed (modelId : string) (σ : gmap string number) :
  Runtime.getModelContextWindow (Runtime.Str modelId) σ
  = (Runtime.Normal (value_of (getModelContextWindow modelId) σ), σ).
Proof.
  unfold Runtime.getModelContextWindow, value_of, getModelContextWindow.
  cbn [Runtime.ToBoolean Runtime.normalizeModelId].
  destruct (truthy modelId); reflexivity.
Qed.

Lemma runtime_invoke_typed (c : call) (σ : gmap string number) :
  Runtime.invoke (Runtime.of_call c) σ
  = (Runtime.Normal (value_of (perform c) σ), state_after (perform c) σ).
Proof.
  destruct c as [modelId w|modelId].
  - rewrite perform_record.
    assert (value_of (perform (Record modelId w)) σ = Void) as ->.
    { unfold value_of. simpl. unfold mbind, Cache_bind.
      by destruct (setModelContextWindow modelId w σ). }
    simpl Runtime.of_call. unfold Runtime.invoke, mbind, Cache_bind.
    by rewrite runtime_set_typed.
  - rewrite perform_lookup.
    assert (value_of (perform (Lookup modelId)) σ
            = Returned (value_of (getModelContextWindow modelId) σ)) as ->.
    { unfold value_of. simpl. unfold mbind, Cache_bind.
      by destruct (getModelContextWindow modelId σ). }
    simpl Runtime.of_call. unfold Runtime.invoke, mbind, Cache_bind.
    by rewrite runtime_get_typed.
Qed.

Lemma runtime_run_typed (cs : list call) (σ : gmap string number) :
  Runtime.run (Runtime.of_call <$> cs) σ
  = (Runtime.Normal <$> value_of (run cs) σ, state_after (run cs) σ).
Proof.
  revert σ. induction cs as [|c cs IH]; intros σ; [done|].
  rewrite fmap_cons. simpl Runtime.run. unfold mbind at 1, Cache_bind at 1.
  rewrite runtime_invoke_typed. unfold mbind at 1, Cache_bind at 1. rewrite IH.
  rewrite run_cons. unfold value_of, state_after. simpl. unfold mbind, Cache_bind.
  destruct (perform c σ) as [o σ1]. simpl.
  by destruct (run cs σ1) as [os σ2].
Qed.

(** Outside the signatures the code does throw: a number that is not a
    zero is truthy and has no [trim]. *)
Example runtime_throws_on_number (σ : gmap string number) :
  Runtime.getModelContextWindow (Runtime.Num n100) σ
  = (Runtime.Throw Runtime.TypeError, σ)
  ∧ Runtime.setModelContextWindow (Runtime.Bool true) (Runtime.Num n100) σ
    = (Runtime.Throw Runtime.TypeError, σ).
Proof. by split. Qed.

(** C10: both functions are total over strings and numbers.  Read at run
    time, where a call may throw, every call of a sequence whose
    identifiers are strings and whose windows are numbers completes
    normally, and a lookup of an identifier that none of them wrote
    completes normally too and returns [undefined], without changing the
    cache. *)
Theorem calls_never_throw_unknown_key (cs : list call) (modelId : string) :
  never_recorded modelId cs →
  ∃ (os : list outcome) (σ' : gmap string number),
    Runtime.run (Runtime.of_call <$> cs) modelContextWindowCache
    = (Runtime.Normal <$> os, σ')
    ∧ length os = length cs
    ∧ Runtime.getModelContextWindow (Runtime.Str modelId) σ'
      = (Runtime.Normal None, σ').
Proof.
  intros Hcs.
  exists (value_of (run cs) modelContextWindowCache),
         (state_after (run cs) modelContextWindowCache).
  split; [apply runtime_run_typed|]. split; [apply run_length|].
  rewrite runtime_get_typed. f_equal. f_equal.
  pose proof (run_never_recorded modelId cs modelContextWindowCache Hcs) as Hk.
  unfold value_of.
  destruct (truthy modelId) eqn:Hid; [|by rewrite get_falsy].
  rewrite get_truthy by done. simpl. by rewrite Hk.
Qed.

Lemma calls_never_throw_unknown_key_witness :
  ∃ (os : list outcome) (σ' : gmap string number),
    Runtime.run (Runtime.of_call
                   <$> [Record "m" n100; Lookup "m"; Record "Model-X" NaN; Lookup ""])
                modelContextWindowCache
    = (Runtime.Normal <$> os, σ')
    ∧ length os = 4%nat
    ∧ Runtime.getModelContextWindow (Runtime.Str "never-seen") σ'
      = (Runtime.Normal None, σ').
Proof.
  refine (calls_never_throw_unknown_key
            [Record "m" n100; Lookup "m"; Record "Model-X" NaN; Lookup ""]
            "never-seen" _).
  apply Forall_cons; split; [discriminate|].
  apply Forall_cons; split; [exact I|].
  apply Forall_cons; split; [discriminate|].
  apply Forall_cons; split; [exact I | by apply Forall_nil].
Defined.

(** * Further properties of the cache *)

Section KeyFacts.

Lemma trimEnd_idemp (s : string) : trimEnd (trimEnd s) = trimEnd s.
Proof.
  induction s as [|c s IH]; simpl; [done|].
  destruct (trimEnd s) as [|c' t] eqn:Ht.
  - destruct (isWhiteSpace c) eqn:Hc; simpl; [done | by rewrite Hc].
  - simpl. simpl in IH. by rewrite IH.
Qed.

Lemma trimStart_head (c : ascii) (s : string) :
  isWhiteSpace c = false → trimStart (trimEnd (String c s)) = trimEnd (String c s).
Proof.
  intros Hc. simpl. destruct (trimEnd s); rewrite ?Hc; simpl; by rewrite Hc.
Qed.

Lemma trimStart_cases (s : string) :
  trimStart s = "" ∨ ∃ c t, trimStart s = String c t ∧ isWhiteSpace c = false.
Proof.
  induction s as [|c s IH]; simpl; [by left|].
  destruct (isWhiteSpace c) eqn:Hc; [done|]. right. by exists c, s.
Qed.

Lemma trim_idemp (s : string) : trim (trim s) = trim s.
Proof.
  unfold trim. destruct (trimStart_cases s) as [->|(c & t & -> & Hc)]; [done|].
  by rewrite trimStart_head, trimEnd_idemp.
Qed.

Lemma toLowerUnit_twice (c : ascii) : toLowerUnit (toLowerUnit c) = toLowerUnit c.
Proof. destruct c as [[] [] [] [] [] [] [] []]; reflexivity. Qed.

Lemma toLowerCase_twice (s : string) : toLowerCase (toLowerCase s) = toLowerCase s.
Proof. induction s as [|c s IH]; simpl; [done|]. by rewrite toLowerUnit_twice, IH. Qed.

End KeyFacts.

(** X1: [normalizeModelId] is idempotent: a normalized key is its own
    normalized key. *)
Theorem normalizeModelId_idempotent (modelId : string) :
  normalizeModelId (normalizeModelId modelId) = normalizeModelId modelId.
Proof.
  unfold normalizeModelId.
  by rewrite <- toLowerCase_trim, trim_idemp, toLowerCase_twice.
Qed.

(** X2: every key of the cache is in normal form, and every entry whose
    key is not empty is read back by [getModelContextWindow] called with
    the key itself. *)
Theorem stored_keys_normalized (cs : list call) (k : string) (v : number) :
  state_after (run cs) modelContextWindowCache !! k = Some v →
  normalizeModelId k = k
  ∧ (k ≠ "" →
     value_of (getModelContextWindow k) (state_after (run cs) modelContextWindowCache)
     = Some v).
Proof.
  intros Hv.
  destruct (stored_entries cs k v Hv) as (modelId & w & _ & _ & _ & -> & _).
  assert (normalizeModelId (normalizeModelId modelId) = normalizeModelId modelId) as Hn.
  { unfold normalizeModelId.
    by rewrite <- toLowerCase_trim, trim_idemp, toLowerCase_twice. }
  split; [done|]. intros Hk%truthy_true.
  unfold value_of. rewrite get_truthy by done. simpl. by rewrite Hn.
Qed.

Lemma stored_keys_normalized_witness :
  let cs := [Record "  GPT-4 " n8000; Lookup "x"] in
  normalizeModelId "gpt-4" = "gpt-4"
  ∧ ("gpt-4" ≠ "" →
     value_of (getModelContextWindow "gpt-4")
              (state_after (run cs) modelContextWindowCache)
     = Some n8000).
Proof.
  intros cs.
  refine (stored_keys_normalized cs "gpt-4" n8000 _). by vm_compute.
Defined.

(** X3: no call removes an entry: a key that is present stays present
    through any sequence of calls. *)
Theorem entries_never_removed (cs : list call) (σ : gmap string number) (k : string) :
  is_Some (σ !! k) → is_Some (state_after (run cs) σ !! k).
Proof.
  revert σ. induction cs as [|c cs IH]; intros σ Hk; [done|].
  rewrite run_cons. apply IH.
  destruct c as [modelId w|modelId]; [|by rewrite perform_lookup].
  rewrite perform_record.
  destruct (decide (k = normalizeModelId modelId)) as [->|Hne];
    [|by rewrite set_other_key].
  unfold state_after.
  destruct (truthy modelId) eqn:Hid; [|by rewrite set_falsy].
  destruct (window_cases w) as [Hw|Hw]; [|by rewrite set_invalid].
  rewrite set_valid by done. simpl. rewrite lookup_insert_eq. by eexists.
Qed.

Lemma entries_never_removed_witness :
  is_Some (state_after (run [Record "m" NaN; Record "other" n50; Lookup "m"])
             (state_after (setModelContextWindow "m" n100) modelContextWindowCache)
           !! "m").
Proof.
  refine (entries_never_removed _ _ "m" _). eexists. by vm_compute.
Defined.

(** X4: a write, accepted or not, changes nothing for identifiers with
    another normalized key: their lookups return what they returned
    before. *)
Theorem record_other_key_untouched (m m' : string) (w : number)
    (σ : gmap string number) :
  normalizeModelId m ≠ normalizeModelId m' →
  value_of (getModelContextWindow m') (state_after (setModelContextWindow m w) σ)
  = value_of (getModelContextWindow m') σ.
Proof.
  intros Hne. unfold value_of.
  destruct (truthy m') eqn:Hm'; [|by rewrite !get_falsy].
  rewrite !get_truthy by done. simpl. by apply set_other_key.
Qed.

Lemma record_other_key_untouched_witness :
  let σ := state_after (setModelContextWindow "b" n50) modelContextWindowCache in
  value_of (getModelContextWindow "B ") (state_after (setModelContextWindow "a" n100) σ)
  = value_of (getModelContextWindow "B ") σ.
Proof.
  intros σ. refine (record_other_key_untouched "a" "B " n100 σ _). discriminate.
Defined.



(** X6: whatever a lookup returns is a whole, non-negative number: when
    the windows handed to the writes are binary64 values, a returned value
    is a finite binary64 value that denotes an integer [z >= 0]; it is
    never NaN, an infinity, a fraction or a negative number. *)
Theorem lookup_returns_nonnegative_integer (cs : list call) (modelId : string)
    (v : number) :
  Forall (λ c, match c with
               | Record _ w => is_binary64 w = true
               | Lookup _ => True
               end) cs →
  value_of (getModelContextWindow modelId)
           (state_after (run cs) modelContextWindowCache) = Some v →
  ∃ z : Z, to_integer v = Some z ∧ (0 ≤ z)%Z
           ∧ is_binary64 v = true ∧ Number_isFinite v = true.
Proof.
  intros Hcs. unfold value_of.
  destruct (truthy modelId) eqn:Hid; [|by rewrite get_falsy].
  rewrite get_truthy by done. simpl. intros Hv.
  destruct (stored_values_integral cs _ v Hcs Hv) as (z & Hz & Hpos & Hb).
  exists z. repeat split; try done.
  destruct v; simpl in Hz; done.
Qed.

Lemma lookup_returns_nonnegative_integer_witness :
  ∃ z : Z, to_integer n100 = Some z ∧ (0 ≤ z)%Z
           ∧ is_binary64 n100 = true ∧ Number_isFinite n100 = true.
Proof.
  refine (lookup_returns_nonnegative_integer
            [Record "m" n100_9; Record "x" n0_5] "M" n100 _ _).
  - apply Forall_cons; split; [reflexivity|].
    apply Forall_cons; split; [reflexivity | by apply Forall_nil].
  - by vm_compute.
Defined.

(** X7: writing is idempotent: the same call of [setModelContextWindow]
    made twice in a row leaves the cache the first call left. *)
Theorem record_idempotent (m : string) (w : number) (σ : gmap string number) :
  state_after (setModelContextWindow m w)
              (state_after (setModelContextWindow m w) σ)
  = state_after (setModelContextWindow m w) σ.
Proof.
  unfold state_after.
  destruct (truthy m) eqn:Hm; [|by rewrite !set_falsy].
  destruct (window_cases w) as [Hw|Hw]; [|by rewrite !set_invalid].
  rewrite !set_valid by done. simpl. apply insert_insert_eq.
Qed.

(** X8: writes under different normalized keys commute: the cache they
    leave does not depend on their order. *)
Theorem records_commute (m1 m2 : string) (w1 w2 : number) (σ : gmap string number) :
  normalizeModelId m1 ≠ normalizeModelId m2 →
  state_after (setModelContextWindow m2 w2)
              (state_after (setModelContextWindow m1 w1) σ)
  = state_after (setModelContextWindow m1 w1)
                (state_after (setModelContextWindow m2 w2) σ).
Proof.
  intros Hne. unfold state_after.
  destruct (truthy m1) eqn:Hm1, (truthy m2) eqn:Hm2;
    destruct (window_cases w1) as [Hw1|Hw1], (window_cases w2) as [Hw2|Hw2];
    rewrite ?(set_falsy m1), ?(set_falsy m2), ?(set_invalid m1), ?(set_invalid m2),
            ?(set_valid m1), ?(set_valid m2) by done; simpl;
    rewrite ?(set_falsy m1), ?(set_falsy m2), ?(set_invalid m1), ?(set_invalid m2),
            ?(set_valid m1), ?(set_valid m2) by done; simpl; try done.
  by apply insert_insert_ne.
Qed.

Lemma records_commute_witness :
  state_after (setModelContextWindow "b" n200)
              (state_after (setModelContextWindow "A" n100) modelContextWindowCache)
  = state_after (setModelContextWindow "A" n100)
                (state_after (setModelContextWindow "b" n200) modelContextWindowCache).
Proof.
  refine (records_commute "A" "b" n100 n200 modelContextWindowCache _). discriminate.
Defined.

(** X9: the cache grows by at most one entry per write and not at all by
    lookups: after a sequence of calls it holds at most as many entries
    more as the sequence has writes. *)
Theorem cache_size_bound (cs : list call) (σ : gmap string number) :
  (size (state_after (run cs) σ) ≤ size σ + length (records cs))%nat.
Proof.
  revert σ. induction cs as [|c cs IH]; intros σ; [unfold state_after; cbn; lia|].
  rewrite run_cons. etrans; [apply IH|].
  destruct c as [m w|m].
  - rewrite perform_record. unfold records. simpl.
    assert (size (state_after (setModelContextWindow m w) σ) ≤ S (size σ))%nat as Hs.
    { unfold state_after.
      destruct (truthy m) eqn:Hm; [|rewrite set_falsy by done; simpl; lia].
      destruct (window_cases w) as [Hw|Hw]; [|rewrite set_invalid by done; simpl; lia].
      rewrite set_valid by done. simpl. rewrite map_size_insert.
      destruct (σ !! normalizeModelId m); unfold id; lia. }
    fold (records cs). lia.
  - rewrite perform_lookup. unfold records. simpl. fold (records cs). lia.
Qed.

(** * The context settings popover *)

Section SliderFacts.

Local Open Scope Z_scope.

Implicit Types (l opts : list ContextLengthValue) (v x : ContextLengthValue).

(** What [indexOf] answers: [-1] when no element is strictly equal to the
    value, and otherwise the first position of such an element. *)
Lemma indexOfFrom_spec l v (i : Z) :
  (Forall (λ x, strictEquals x v = false) l ∧ indexOfFrom l v i = -1)
  ∨ ∃ (n : nat) x,
      l !! n = Some x ∧ strictEquals x v = true
      ∧ (∀ (j : nat) y, (j < n)%nat → l !! j = Some y → strictEquals y v = false)
      ∧ indexOfFrom l v i = i + Z.of_nat n.
Proof.
  revert i. induction l as [|a l IH]; intros i; simpl.
  - left. by split.
  - destruct (strictEquals a v) eqn:Ha.
    + right. exists 0%nat, a. repeat split; [done| |lia]. intros j y Hj. lia.
    + destruct (IH (i + 1)) as [[Hall Hidx]|(n & x & Hn & Hx & Hfirst & Hidx)].
      * left. split; [by constructor | done].
      * right. exists (S n), x. repeat split; [done|done| |lia].
        intros [|j] y Hj Hy; simpl in Hy; [by injection Hy as <-|].
        apply (Hfirst j); [lia | done].
Qed.

Lemma Array_indexOf_spec l v :
  (Forall (λ x, strictEquals x v = false) l ∧ Array_indexOf l v = -1)
  ∨ ∃ (n : nat) x,
      l !! n = Some x ∧ strictEquals x v = true
      ∧ (∀ (j : nat) y, (j < n)%nat → l !! j = Some y → strictEquals y v = false)
      ∧ Array_indexOf l v = Z.of_nat n.
Proof.
  destruct (indexOfFrom_spec l v 0) as [?|(n & x & ? & ? & ? & Hn)]; [by left|].
  right. exists n, x. by rewrite Z.add_0_l in Hn.
Qed.

Lemma sliderPositionToValue_nat opts (n : nat) :
  sliderPositionToValue opts (Z.of_nat n) = opts !! n.
Proof.
  unfold sliderPositionToValue.
  destruct (Z.ltb_spec (Z.of_nat n) 0); [lia|]. by rewrite Nat2Z.id.
Qed.

End SliderFacts.

(** X10: when a value is strictly equal to one of the options, the slider
    position computed for it reads back an option strictly equal to it. *)
Theorem slider_value_round_trip (opts : list ContextLengthValue)
    (value : ContextLengthValue) :
  (∃ x, x ∈ opts ∧ strictEquals x value = true) →
  ∃ x, sliderPositionToValue opts (valueToSliderPosition opts value) = Some x
       ∧ strictEquals x value = true.
Proof.
  intros (x0 & Hin & Hx0). unfold valueToSliderPosition.
  destruct (Array_indexOf_spec opts value)
    as [[Hall _]|(n & x & Hn & Hx & _ & ->)].
  - rewrite Forall_forall in Hall. rewrite (Hall x0 Hin) in Hx0. discriminate.
  - destruct (Z.leb_spec 0 (Z.of_nat n)); [|lia].
    exists x. by rewrite sliderPositionToValue_nat.
Qed.

Lemma slider_value_round_trip_witness :
  ∃ x, sliderPositionToValue slider_options
         (valueToSliderPosition slider_options (Rounds (S754_zero true))) = Some x
       ∧ strictEquals x (Rounds (S754_zero true)) = true.
Proof.
  refine (slider_value_round_trip slider_options (Rounds (S754_zero true)) _).
  exists (Rounds zero). split; [|reflexivity]. by left.
Defined.

(** X11: with at least two options the position computed for any value,
    among the options or not, lies between 0 and [maxSliderPosition], so
    the slider always gets a position that reads back an option. *)
Theorem slider_position_in_range (opts : list ContextLengthValue)
    (value : ContextLengthValue) :
  (2 ≤ length opts)%nat →
  (0 ≤ valueToSliderPosition opts value ≤ maxSliderPosition opts)%Z
  ∧ is_Some (sliderPositionToValue opts (valueToSliderPosition opts value)).
Proof.
  intros Hlen. unfold valueToSliderPosition, maxSliderPosition.
  destruct (Array_indexOf_spec opts value)
    as [[_ ->]|(n & x & Hn & _ & _ & ->)].
  - simpl. split; [lia|].
    replace (Z.of_nat (length opts) - 2)%Z with (Z.of_nat (length opts - 2)) by lia.
    rewrite sliderPositionToValue_nat. apply lookup_lt_is_Some. lia.
  - destruct (Z.leb_spec 0 (Z.of_nat n)); [|lia].
    pose proof (lookup_lt_Some _ _ _ Hn). split; [lia|].
    rewrite sliderPositionToValue_nat. by eexists.
Qed.

Lemma slider_position_in_range_witness :
  (0 ≤ valueToSliderPosition slider_options (Rounds NaN)
   ≤ maxSliderPosition slider_options)%Z
  ∧ is_Some (sliderPositionToValue slider_options
               (valueToSliderPosition slider_options (Rounds NaN))).
Proof.
  refine (slider_position_in_range slider_options (Rounds NaN) _). simpl. lia.
Defined.

(** X12: a value strictly equal to none of the options, NaN among them,
    is shown at the position before the last one, whatever the value
    is. *)
Theorem slider_unknown_value_fallback (opts : list ContextLengthValue)
    (value : ContextLengthValue) :
  Forall (λ x, strictEquals x value = false) opts →
  valueToSliderPosition opts value = (Z.of_nat (length opts) - 2)%Z.
Proof.
  intros Hall. unfold valueToSliderPosition.
  destruct (Array_indexOf_spec opts value)
    as [[_ ->]|(n & x & Hn & Hx & _ & _)]; [done|].
  rewrite Forall_forall in Hall.
  rewrite (Hall x) in Hx; [discriminate|]. by eapply list_elem_of_lookup_2.
Qed.

Lemma slider_unknown_value_fallback_witness :
  valueToSliderPosition slider_options (Rounds n100) = 4%Z
  ∧ sliderPositionToValue slider_options 4 = Some (Rounds n20).
Proof.
  split; [|reflexivity].
  refine (slider_unknown_value_fallback slider_options (Rounds n100) _).
  repeat (apply Forall_cons; split; [reflexivity|]). by apply Forall_nil.
Defined.

(** X13: a position read as a value and turned into a position again is
    the same position, provided the value equals itself (it is not NaN)
    and no earlier option is strictly equal to it. *)
Theorem slider_position_round_trip (opts : list ContextLengthValue)
    (position : Z) (value : ContextLengthValue) :
  sliderPositionToValue opts position = Some value →
  strictEquals value value = true →
  (∀ (j : nat) y, (Z.of_nat j < position)%Z → opts !! j = Some y →
                  strictEquals y value = false) →
  valueToSliderPosition opts value = position.
Proof.
  unfold sliderPositionToValue. intros Hp Hrefl Hfirst.
  destruct (Z.ltb_spec position 0) as [|Hpos]; [done|].
  unfold valueToSliderPosition.
  destruct (Array_indexOf_spec opts value)
    as [[Hall _]|(n & x & Hn & Hx & Hmin & ->)].
  - rewrite Forall_forall in Hall.
    rewrite (Hall value) in Hrefl; [discriminate|]. by eapply list_elem_of_lookup_2.
  - destruct (Z.leb_spec 0 (Z.of_nat n)); [|lia].
    destruct (Z.lt_trichotomy (Z.of_nat n) position) as [Hlt|[Heq|Hgt]]; [|done|].
    + rewrite (Hfirst n x Hlt Hn) in Hx. discriminate.
    + rewrite (Hmin (Z.to_nat position) value) in Hrefl; [discriminate|lia|done].
Qed.

Lemma slider_position_round_trip_witness :
  valueToSliderPosition slider_options Infinite = 5%Z.
Proof.
  refine (slider_position_round_trip slider_options 5 Infinite eq_refl eq_refl _).
  intros j y Hj. do 5 (destruct j as [|j]; [by intros [= <-]|]). lia.
Defined.

Section ThresholdFacts.

Local Open Scope Z_scope.

(** Rounding an integer below 2^52 to binary64 is exact, for both
    signs. *)
Lemma binary_round_small (s : bool) (p : positive) :
  Zpos (digits2_pos p) < 53 →
  binary_round prec emax s p 0 = aligned s p.
Proof.
  intros Hd. unfold binary_round, aligned.
  set (d := Zpos (digits2_pos p)) in *.
  rewrite Z.add_0_r, fexp_small by done.
  unfold shl_align.
  replace (d - 53 - 0) with (Zneg (Z.to_pos (53 - d))) by lia.
  unfold binary_round_aux.
  rewrite shr_fexp_canonical; [|rewrite digits2_iter_xO; fold d; lia|lia].
  cbn [shr_m loc_of_shr_record round_nearest_even].
  rewrite shr_fexp_canonical; [|rewrite digits2_iter_xO; fold d; lia|lia].
  cbn [shr_m]. unfold emax, prec.
  destruct (Z.leb_spec (d - 53) (1024 - 53)); [done | lia].
Qed.

Lemma digits2_small (p : positive) : Zpos p < 2 ^ 52 → Zpos (digits2_pos p) < 53.
Proof.
  intros Hp. pose proof (digits2_bounds p) as [Hlo _].
  destruct (Z.lt_ge_cases (Zpos (digits2_pos p)) 53); [done|].
  assert (2 ^ 52 ≤ 2 ^ (Zpos (digits2_pos p) - 1)) by (apply Z.pow_le_mono_r; lia).
  lia.
Qed.

Lemma of_integer_pos (p : positive) (b : bool) :
  Zpos p < 2 ^ 52 → of_integer (Zpos p) b = aligned false p.
Proof. intros Hp. apply binary_round_small. by apply digits2_small. Qed.

Lemma of_integer_neg (p : positive) (b : bool) :
  Zpos p < 2 ^ 52 → of_integer (Zneg p) b = aligned true p.
Proof. intros Hp. apply binary_round_small. by apply digits2_small. Qed.

Lemma to_integer_aligned (s : bool) (p : positive) :
  Zpos p < 2 ^ 52 → to_integer (aligned s p) = Some (cond_Zopp s (Zpos p)).
Proof.
  intros Hp%digits2_small. unfold aligned, to_integer.
  set (d := Zpos (digits2_pos p)) in *.
  destruct (Z.leb_spec 0 (d - 53)); [lia|].
  rewrite iter_xO_mul, Z2Pos.id by lia.
  replace (- (d - 53)) with (53 - d) by lia.
  assert (0 < 2 ^ (53 - d)) by (apply Z.pow_pos_nonneg; lia).
  by rewrite Z.mod_mul, Z.div_mul by lia.
Qed.

(** On integers below 2^52 the order of the Numbers is the order of the
    integers. *)
Lemma lt_aligned (p q : positive) :
  Zpos p < 2 ^ 52 → Zpos q < 2 ^ 52 →
  lt (aligned false p) (aligned false q) = (Zpos p <? Zpos q).
Proof.
  intros Hp%digits2_small Hq%digits2_small.
  pose proof (digits2_bounds p) as [Hplo Hphi].
  pose proof (digits2_bounds q) as [Hqlo Hqhi].
  unfold lt, SFltb, aligned, SFcompare.
  set (dp := Zpos (digits2_pos p)) in *. set (dq := Zpos (digits2_pos q)) in *.
  destruct (Z.compare_spec (dp - 53) (dq - 53)) as [Heq|Hlt|Hgt].
  - assert (dp = dq) as Hd by lia. rewrite Hd.
    change (Pos.compare_cont Eq ?a ?b) with (Pos.compare a b).
    rewrite Pos2Z.inj_compare, !iter_xO_mul.
    assert (0 < 2 ^ Zpos (Z.to_pos (53 - dq))) as Hk by (apply Z.pow_pos_nonneg; lia).
    destruct (Z.compare_spec (Zpos p * 2 ^ Zpos (Z.to_pos (53 - dq)))
                             (Zpos q * 2 ^ Zpos (Z.to_pos (53 - dq)))).
    + symmetry. apply Z.ltb_ge. nia.
    + symmetry. apply Z.ltb_lt. nia.
    + symmetry. apply Z.ltb_ge. nia.
  - assert (2 ^ dp ≤ 2 ^ (dq - 1)) by (apply Z.pow_le_mono_r; lia).
    symmetry. apply Z.ltb_lt. lia.
  - assert (2 ^ dq ≤ 2 ^ (dp - 1)) by (apply Z.pow_le_mono_r; lia).
    symmetry. apply Z.ltb_ge. lia.
Qed.

Lemma n10_aligned : n10 = aligned false 10.
Proof. reflexivity. Qed.

Lemma n95_aligned : n95 = aligned false 95.
Proof. reflexivity. Qed.

(** The clamp on the Numbers of small positive integers is the clamp on
    the integers. *)
Lemma clamp_aligned (p : positive) :
  Zpos p < 2 ^ 52 →
  Math_min n95 (Math_max n10 (aligned false p))
  = aligned false (Z.to_pos (Z.min 95 (Z.max 10 (Zpos p)))).
Proof.
  intros Hp. rewrite n10_aligned, n95_aligned.
  assert (Math_max (aligned false 10) (aligned false p)
          = aligned false (Z.to_pos (Z.max 10 (Zpos p)))) as ->.
  { unfold Math_max. simpl isNaN. simpl orb. cbv iota.
    rewrite !lt_aligned by (done || reflexivity).
    destruct (Z.ltb_spec 10 (Zpos p)).
    - rewrite Z.max_r by lia. done.
    - rewrite Z.max_l by lia.
      destruct (Z.ltb_spec (Zpos p) 10); done. }
  set (q := Z.to_pos (Z.max 10 (Zpos p))).
  assert (Zpos q = Z.max 10 (Zpos p)) as Hq by (unfold q; lia).
  assert (Zpos q < 2 ^ 52) as Hq52.
  { rewrite Hq. apply Z.max_lub_lt; [reflexivity | done]. }
  rewrite <- Hq.
  unfold Math_min. simpl isNaN. simpl orb. cbv iota.
  rewrite !lt_aligned by (done || reflexivity).
  destruct (Z.ltb_spec 95 (Zpos q)).
  - rewrite Z.min_l by lia. done.
  - rewrite Z.min_r by lia.
    destruct (Z.ltb_spec (Zpos q) 95); [by rewrite Pos2Z.id|].
    assert (q = 95%positive) as -> by lia. done.
Qed.

Lemma leadingDigits_nonneg (s : string) (acc : option Z) (z : Z) :
  0 ≤ default 0 acc → leadingDigits s acc = Some z → 0 ≤ z.
Proof.
  revert acc. induction s as [|c s IH]; intros acc Hacc; simpl.
  - intros ->. done.
  - destruct (isDigit c) eqn:Hc; [|by intros ->].
    apply IH. simpl. unfold isDigit in Hc. unfold digitValue.
    apply andb_true_iff in Hc as [Hlo%N.leb_le _]. lia.
Qed.

Lemma StringToInteger10_nonneg (s : string) (negative : bool) (z : Z) :
  StringToInteger10 s = Some (negative, z) → 0 ≤ z.
Proof.
  unfold StringToInteger10.
  destruct (match trimStart s with
            | String "-" rest => (true, rest)
            | String "+" rest => (false, rest)
            | rest => (false, rest)
            end) as [b rest].
  destruct (leadingDigits rest None) as [z'|] eqn:Hz; [|done].
  intros [= -> ->]. by apply (leadingDigits_nonneg rest None).
Qed.

(** One change of the input keeps the threshold or moves it into the
    range. *)
Lemma handleThresholdChange_step (value : string) (t : number) :
  handleThresholdChange value t = t
  ∨ threshold_in_range (handleThresholdChange value t).
Proof.
  unfold handleThresholdChange.
  destruct (Number_isFinite (Number_parseInt10 value)) eqn:Hfin; [|by left].
  right. simpl negb. cbv iota. set (x := Number_parseInt10 value) in *.
  assert (isNaN x = false) as Hnan by (by destruct x).
  unfold threshold_in_range, Math_max. simpl isNaN. rewrite Hnan. simpl orb. cbv iota.
  assert (∀ a, (a = n10 ∨ (a = x ∧ lt n10 x = true)) →
               le n10 (Math_min n95 a) = true ∧ le (Math_min n95 a) n95 = true) as Hmin.
  { intros a Ha. unfold Math_min. simpl isNaN.
    assert (isNaN a = false) as -> by (destruct Ha as [->|[-> _]]; done).
    simpl orb. cbv iota.
    destruct (lt n95 a) eqn:H1; [done|].
    destruct (lt a n95) eqn:H2; [|done].
    split.
    - destruct Ha as [->|[-> Hx]]; [done|].
      unfold le, SFleb. unfold lt, SFltb in Hx.
      by destruct (SFcompare n10 x) as [[]|].
    - unfold le, SFleb. unfold lt, SFltb in H2.
      by destruct (SFcompare a n95) as [[]|]. }
  destruct (lt n10 x) eqn:H1; [apply Hmin; by right|].
  destruct (lt x n10) eqn:H2; apply Hmin; by left.
Qed.

End ThresholdFacts.

(** X14: the threshold never leaves its range: from a value between 10
    and 95, any sequence of texts typed into the input, digits or not,
    leaves a value between 10 and 95. *)
Theorem threshold_stays_in_range (values : list string) (infiniteThreshold : number) :
  threshold_in_range infiniteThreshold →
  threshold_in_range
    (fold_left (λ t value, handleThresholdChange value t) values infiniteThreshold).
Proof.
  revert infiniteThreshold. induction values as [|value values IH]; intros t Ht; [done|].
  simpl. apply IH. by destruct (handleThresholdChange_step value t) as [->|?].
Qed.

Lemma threshold_stays_in_range_witness :
  threshold_in_range
    (fold_left (λ t value, handleThresholdChange value t)
               ["7"; ""; "abc"; "120"; "-4"; "60"] n20).
Proof.
  exact (threshold_stays_in_range ["7"; ""; "abc"; "120"; "-4"; "60"] n20
           (conj eq_refl eq_refl)).
Defined.

(** X15: when the text starts, after white space and a sign, with digits
    that read an integer below 2^52, the threshold becomes the Number of
    this integer clamped to the range from 10 to 95. *)
Theorem threshold_clamps_integer (value : string) (infiniteThreshold : number)
    (negative : bool) (z : Z) :
  StringToInteger10 value = Some (negative, z) →
  (z < 2 ^ 52)%Z →
  to_integer (handleThresholdChange value infiniteThreshold)
  = Some (Z.min 95 (Z.max 10 (cond_Zopp negative z))).
Proof.
  intros Hparse Hz. pose proof (StringToInteger10_nonneg _ _ _ Hparse) as Hz0.
  unfold handleThresholdChange, Number_parseInt10. rewrite Hparse.
  destruct z as [|p|p]; [| |lia].
  - unfold of_integer. destruct negative; reflexivity.
  - destruct negative; cbn [cond_Zopp].
    + change (- Z.pos p)%Z with (Z.neg p).
      rewrite of_integer_neg by done. reflexivity.
    + rewrite of_integer_pos by done. simpl negb. cbv iota.
      rewrite clamp_aligned by done.
      rewrite to_integer_aligned; [simpl cond_Zopp; f_equal; lia|].
      rewrite Z2Pos.id by lia.
      apply Z.min_lt_iff. left. reflexivity.
Qed.

Lemma threshold_clamps_integer_witness :
  to_integer (handleThresholdChange " 60%" n20) = Some 60%Z.
Proof.
  exact (threshold_clamps_integer " 60%" n20 false 60 eq_refl eq_refl).
Defined.

(** X16: a text without a number leaves the threshold alone: when it is
    empty or blank, or when what follows the white space is neither a
    sign nor a digit, the atom keeps its value. *)
Theorem threshold_ignores_text_without_number (value : string)
    (infiniteThreshold : number) :
  (trimStart value = ""
   ∨ ∃ c rest, trimStart value = String c rest
               ∧ isDigit c = false ∧ c ≠ "-"%char ∧ c ≠ "+"%char) →
  handleThresholdChange value infiniteThreshold = infiniteThreshold.
Proof.
  intros Hv. unfold handleThresholdChange, Number_parseInt10.
  assert (StringToInteger10 value = None) as ->; [|done].
  unfold StringToInteger10. destruct Hv as [->|(c & rest & -> & Hc & Hm & Hp)]; [done|].
  assert (match String c rest with
          | String "-" rest0 => (true, rest0)
          | String "+" rest0 => (false, rest0)
          | rest0 => (false, rest0)
          end = (false, String c rest)) as ->.
  { destruct c as [[] [] [] [] [] [] [] []]; try done. }
  simpl. by rewrite Hc.
Qed.

Lemma threshold_ignores_text_without_number_witness :
  handleThresholdChange "" n20 = n20 ∧ handleThresholdChange "  %" n20 = n20.
Proof.
  split.
  - exact (threshold_ignores_text_without_number "" n20 (or_introl eq_refl)).
  - refine (threshold_ignores_text_without_number "  %" n20 (or_intror _)).
    exists "%"%char, "". repeat split; discriminate.
Defined.

(** * The ask-user banner *)

Import AskUserBanner.

Section BannerFacts.

Implicit Types (answers : gmap nat QuestionAnswer) (questions : list AskUserQuestion).

Lemma getAnswer_insert answers (i j : nat) (a : QuestionAnswer) :
  getAnswer (<[i := a]> answers) j = if decide (i = j) then a else getAnswer answers j.
Proof.
  unfold getAnswer. destruct (decide (i = j)) as [->|Hne].
  - by rewrite lookup_insert_eq.
  - by rewrite lookup_insert_ne.
Qed.

Lemma getAnswer_empty (i : nat) :
  getAnswer ∅ i = {| selected := []; customText := ""; showCustom := false |}.
Proof. unfold getAnswer. by rewrite lookup_empty. Qed.

Lemma filter_out_appended (l : list string) (label : string) :
  label ∉ l → filter (λ s, s ≠ label) (l ++ [label])%list = l.
Proof.
  intros Hl. rewrite filter_app.
  replace (filter (λ s, s ≠ label) [label]) with (@nil string).
  - rewrite app_nil_r. induction l as [|x l IH]; [done|].
    apply not_elem_of_cons in Hl as [Hx Hl].
    rewrite filter_cons_True by done. by rewrite IH.
  - by rewrite filter_cons_False, filter_nil by (intros H; by apply H).
Qed.

Lemma consistent_toggleOption questions (idx : nat) (question : AskUserQuestion)
    (label : string) (a : QuestionAnswer) :
  questions !! idx = Some question →
  consistent questions idx a →
  consistent questions idx (toggleOptionUpdater question label a).
Proof.
  intros Hq (Hex & Hnd & Hone). unfold toggleOptionUpdater, Array_includes.
  destruct (multiSelect question) eqn:Hmulti.
  - split; [done|]. simpl. split.
    + case_bool_decide as Hin.
      * by apply NoDup_filter.
      * apply NoDup_app. split; [done|]. split; [|apply NoDup_singleton].
        intros x Hx ->%list_elem_of_singleton. done.
    + intros q Hq' Hsingle. congruence.
  - split; [done|]. simpl. split; [apply NoDup_singleton | intros; lia].
Qed.

Lemma consistent_toggleCustom questions (idx : nat) (a : QuestionAnswer) :
  consistent questions idx a → consistent questions idx (toggleCustomUpdater a).
Proof.
  intros (Hex & Hnd & Hone). unfold toggleCustomUpdater.
  destruct (showCustom a) eqn:Hshow; simpl.
  - split; [done|]. by split.
  - split; [done|]. split; [apply NoDup_nil_2 | intros; simpl; lia].
Qed.

Lemma consistent_handle questions (e : event) answers :
  (∀ idx, consistent questions idx (getAnswer answers idx)) →
  ∀ idx, consistent questions idx (getAnswer (handle questions e answers) idx).
Proof.
  intros Hall idx.
  destruct e as [qIdx label|qIdx|qIdx text]; simpl;
    destruct (questions !! qIdx) as [question|] eqn:Hq; try done;
    unfold toggleOption, toggleCustom, onCustomTextChange, updateAnswer;
    rewrite getAnswer_insert; destruct (decide (qIdx = idx)) as [<-|Hne]; try done.
  - by apply consistent_toggleOption.
  - by apply consistent_toggleCustom.
  - apply (Hall qIdx).
Qed.

Lemma consistent_handleAll questions (es : list event) answers :
  (∀ idx, consistent questions idx (getAnswer answers idx)) →
  ∀ idx, consistent questions idx (getAnswer (handleAll questions es answers) idx).
Proof.
  revert answers. induction es as [|e es IH]; intros answers Hall; [done|].
  simpl. apply IH. by apply consistent_handle.
Qed.

Lemma consistent_initial questions (idx : nat) :
  consistent questions idx (getAnswer ∅ idx).
Proof.
  rewrite getAnswer_empty. split; [done|]. split; [apply NoDup_nil_2|].
  intros; simpl; lia.
Qed.

(** The record the loop builds holds, under [String(i)] for [i < n], the
    text of answer [i], and what [acc] held under the other keys. *)
Lemma buildAnswers_lookup answers (n : nat) (acc : gmap string string) (k : string) :
  buildAnswers answers n acc !! k
  = match list_find (λ i, String_of_index i = k) (seq 0 n) with
    | Some (_, i) =>
        match answerText (getAnswer answers i) with
        | Some text => Some text
        | None => acc !! k
        end
    | None => acc !! k
    end.
Proof.
  unfold buildAnswers. induction n as [|n IH]; [done|].
  rewrite seq_S, fold_left_app. simpl.
  destruct (list_find (λ i, String_of_index i = k) (seq 0 n)) as [[j i]|] eqn:Hfind.
  - erewrite list_find_app_l by done.
    apply list_find_Some in Hfind as (Hj & Hk & _).
    apply lookup_seq in Hj as [-> Hjn]. simpl in Hk.
    assert (String_of_index n ≠ k) as Hne.
    { rewrite <- Hk. intros Heq%(inj pretty). lia. }
    destruct (answerText (getAnswer answers n));
      rewrite ?lookup_insert_ne by done; exact IH.
  - rewrite list_find_app_r by done. simpl.
    destruct (decide (String_of_index n = k)) as [Hk|Hk]; simpl.
    + destruct (answerText (getAnswer answers n)) as [text|].
      * rewrite <- Hk. by rewrite lookup_insert_eq.
      * exact IH.
    + destruct (answerText (getAnswer answers n));
        rewrite ?lookup_insert_ne by done; exact IH.
Qed.

Lemma answersRecord_index answers questions (i : nat) :
  (i < length questions)%nat →
  answersRecord answers questions !! String_of_index i
  = answerText (getAnswer answers i).
Proof.
  intros Hi. unfold answersRecord. rewrite buildAnswers_lookup.
  destruct (list_find (λ j, String_of_index j = String_of_index i)
              (seq 0 (length questions))) as [[p j]|] eqn:Hfind.
  - apply list_find_Some in Hfind as (_ & Hj%(inj pretty) & _). subst j.
    rewrite lookup_empty. by destruct (answerText (getAnswer answers i)).
  - apply list_find_None in Hfind. rewrite Forall_forall in Hfind.
    exfalso. apply (Hfind i); [|done]. apply elem_of_seq. lia.
Qed.

Lemma answersRecord_key answers questions (k text : string) :
  answersRecord answers questions !! k = Some text →
  ∃ i, (i < length questions)%nat ∧ k = String_of_index i
       ∧ answerText (getAnswer answers i) = Some text.
Proof.
  unfold answersRecord. rewrite buildAnswers_lookup.
  destruct (list_find (λ j, String_of_index j = k)
              (seq 0 (length questions))) as [[p j]|] eqn:Hfind;
    [|by rewrite lookup_empty].
  apply list_find_Some in Hfind as (Hj & Hk & _).
  apply lookup_seq in Hj as [Hj Hlt]. simpl in Hj. subst j.
  rewrite lookup_empty.
  destruct (answerText (getAnswer answers p)) as [t|] eqn:Ht; [|done].
  intros [= ->]. by exists p.
Qed.

Lemma truthy_length (s : string) : truthy s = (0 <? String.length s)%nat.
Proof. by destruct s. Qed.

(** An answer has a text to send exactly under the condition that
    [hasValidAnswers] tests. *)
Lemma answerText_is_Some (a : QuestionAnswer) :
  is_Some (answerText a)
  ↔ (0 <? length (selected a))%nat
    || showCustom a && (0 <? String.length (trim (customText a)))%nat = true.
Proof.
  unfold answerText. rewrite <- truthy_length.
  destruct (showCustom a), (truthy (trim (customText a))),
    (0 <? length (selected a))%nat; simpl; split;
    intros H; try done; try by eexists. all: by destruct H.
Qed.

End BannerFacts.

(** X17: in a multi-select question, clicking twice an option that was
    not selected leaves the selection as it was: the first click adds the
    label at the end, the second takes it out again. *)
Theorem toggle_option_twice (questions : list AskUserQuestion)
    (answers : gmap nat QuestionAnswer) (qIdx : nat) (question : AskUserQuestion)
    (label : string) :
  questions !! qIdx = Some question →
  multiSelect question = true →
  label ∉ selected (getAnswer answers qIdx) →
  selected (getAnswer (handleAll questions
                         [ClickOption qIdx label; ClickOption qIdx label] answers)
                      qIdx)
  = selected (getAnswer answers qIdx).
Proof.
  intros Hq Hmulti Hnot. simpl. rewrite Hq.
  unfold toggleOption, updateAnswer. rewrite !getAnswer_insert.
  destruct (decide (qIdx = qIdx)); [|done].
  unfold toggleOptionUpdater, Array_includes. rewrite Hmulti. simpl.
  rewrite (bool_decide_eq_false_2 _ Hnot).
  rewrite bool_decide_eq_true_2 by (apply elem_of_app; right; by left).
  by apply filter_out_appended.
Qed.

Lemma toggle_option_twice_witness :
  let questions := [ {| multiSelect := true |} ] in
  let answers := handleAll questions [ClickOption 0 "a"] ∅ in
  selected (getAnswer (handleAll questions
                         [ClickOption 0 "b"; ClickOption 0 "b"] answers) 0)
  = selected (getAnswer answers 0).
Proof.
  intros questions answers.
  refine (toggle_option_twice questions answers 0 {| multiSelect := true |} "b"
            eq_refl eq_refl _).
  vm_compute. intros H. apply list_elem_of_singleton in H. discriminate.
Defined.

(** X18: whatever the user clicks and types, starting from the empty
    answers of a new request, every question keeps an answer in which the
    custom input and the selected options exclude each other, no label is
    selected twice, and at most one label is selected unless the question
    is multi-select. *)
Theorem answers_stay_consistent (questions : list AskUserQuestion)
    (es : list event) (idx : nat) :
  let a := getAnswer (handleAll questions es ∅) idx in
  (showCustom a = true → selected a = [])
  ∧ NoDup (selected a)
  ∧ (∀ q, questions !! idx = Some q → multiSelect q = false →
          (length (selected a) ≤ 1)%nat).
Proof.
  apply (consistent_handleAll questions es ∅). apply consistent_initial.
Qed.

Lemma answers_stay_consistent_witness :
  let questions := [ {| multiSelect := true |}; {| multiSelect := false |} ] in
  let a := getAnswer (handleAll questions
                        [ClickOption 1 "x"; ClickOption 1 "y"; ClickCustom 1;
                         TypeCustom 1 "other"; ClickCustom 1] ∅) 1 in
  (showCustom a = true → selected a = [])
  ∧ NoDup (selected a)
  ∧ (∀ q, questions !! 1%nat = Some q → multiSelect q = false →
          (length (selected a) ≤ 1)%nat).
Proof.
  intros questions.
  exact (answers_stay_consistent questions
           [ClickOption 1 "x"; ClickOption 1 "y"; ClickCustom 1;
            TypeCustom 1 "other"; ClickCustom 1] 1).
Defined.

(** X19: the record sent on submit holds, under the decimal index of
    each question, the text of that question's answer and nothing else:
    the trimmed custom text when the custom input is shown and not blank,
    else the selected labels joined by a comma and a space, and no entry
    when there is neither. *)
Theorem answers_record_entries (answers : gmap nat QuestionAnswer)
    (questions : list AskUserQuestion) (k text : string) :
  answersRecord answers questions !! k = Some text
  ↔ ∃ i, (i < length questions)%nat ∧ k = String_of_index i
         ∧ answerText (getAnswer answers i) = Some text.
Proof.
  split; [apply answersRecord_key|].
  intros (i & Hi & -> & Ht). by rewrite answersRecord_index.
Qed.

(** X20: the submit button is enabled by [hasValidAnswers] exactly when
    the record that a submit would send is not empty. *)
Theorem submit_enabled_iff_record_nonempty (answers : gmap nat QuestionAnswer)
    (questions : list AskUserQuestion) :
  hasValidAnswers answers questions = true
  ↔ answersRecord answers questions ≠ ∅.
Proof.
  unfold hasValidAnswers. rewrite existsb_exists. split.
  - intros (i & Hi%list_elem_of_In%elem_of_seq & Hcond).
    apply answerText_is_Some in Hcond as [text Ht].
    intros Hempty.
    assert (answersRecord answers questions !! String_of_index i = Some text) as Hl.
    { rewrite answersRecord_index by lia. done. }
    rewrite Hempty, lookup_empty in Hl. discriminate.
  - intros Hne. apply map_choose in Hne as (k & text & Hk).
    apply answersRecord_key in Hk as (i & Hi & _ & Ht).
    exists i. split.
    + apply list_elem_of_In, elem_of_seq. lia.
    + apply answerText_is_Some. by eexists.
Qed.

(** X21: for a question that is not multi-select, what is sent after any
    clicks and typing is a single option label or the trimmed, non-empty
    custom text; labels are never joined. *)
Theorem single_select_sends_one_answer (questions : list AskUserQuestion)
    (es : list event) (idx : nat) (q : AskUserQuestion) (text : string) :
  questions !! idx = Some q →
  multiSelect q = false →
  let answers := handleAll questions es ∅ in
  answersRecord answers questions !! String_of_index idx = Some text →
  selected (getAnswer answers idx) = [text]
  ∨ (showCustom (getAnswer answers idx) = true
     ∧ text = trim (customText (getAnswer answers idx))
     ∧ text ≠ "" ∧ trim text = text).
Proof.
  intros Hq Hsingle answers.
  pose proof (lookup_lt_Some _ _ _ Hq) as Hlt.
  rewrite answersRecord_index by done.
  destruct (consistent_handleAll questions es ∅ (consistent_initial questions) idx)
    as (Hex & _ & Hone).
  specialize (Hone q Hq Hsingle). fold answers in Hex, Hone.
  unfold answerText.
  destruct (showCustom (getAnswer answers idx)
            && truthy (trim (customText (getAnswer answers idx)))) eqn:Hc.
  - apply andb_true_iff in Hc as [Hshow Htr]. intros [= <-]. right.
    split; [done|]. split; [done|]. split; [by apply truthy_true|apply trim_idemp].
  - destruct (selected (getAnswer answers idx)) as [|x [|y l]]; simpl in *;
      [done| |lia].
    intros [= <-]. by left.
Qed.

Lemma single_select_sends_one_answer_witness :
  let questions := [ {| multiSelect := true |}; {| multiSelect := false |} ] in
  let answers := handleAll questions
                   [ClickOption 1 "x"; ClickCustom 1; TypeCustom 1 " no "; ClickOption 1 "y"]
                   ∅ in
  selected (getAnswer answers 1) = ["y"]
  ∨ (showCustom (getAnswer answers 1) = true
     ∧ "y" = trim (customText (getAnswer answers 1))
     ∧ "y" ≠ "" ∧ trim "y" = "y").
Proof.
  intros questions answers.
  refine (single_select_sends_one_answer questions
            [ClickOption 1 "x"; ClickCustom 1; TypeCustom 1 " no "; ClickOption 1 "y"]
            1 {| multiSelect := false |} "y" eq_refl eq_refl _).
  by vm_compute.
Defined.

(** X22: answering the request on display dequeues it in FIFO order:
    when the identifiers of the queue are distinct, removing the answered
    head leaves exactly the rest of the queue, so that the next request
    comes on display; requests that arrived meanwhile stay behind it. *)
Theorem answered_request_dequeued {Request RequestId : Type}
    `{EqDecision RequestId} (requestId : Request → RequestId)
    (request : Request) (rest : list Request) :
  NoDup (requestId <$> request :: rest) →
  removeAnswered requestId request (request :: rest) = rest
  ∧ currentRequest (removeAnswered requestId request (request :: rest))
    = currentRequest rest.
Proof.
  intros Hnd. rewrite fmap_cons in Hnd. apply NoDup_cons in Hnd as [Hhead _].
  assert (removeAnswered requestId request (request :: rest) = rest) as ->; [|done].
  unfold removeAnswered. rewrite filter_cons_False by (intros H'; by apply H').
  induction rest as [|r rest IH]; [done|].
  rewrite fmap_cons in Hhead. apply not_elem_of_cons in Hhead as [Hr Hrest].
  rewrite filter_cons_True by done. by rewrite IH.
Qed.

Lemma answered_request_dequeued_witness :
  removeAnswered (λ r : string * nat, r.1) ("r1", 0) [("r1", 0); ("r2", 1); ("r3", 2)]
  = [("r2", 1); ("r3", 2)]
  ∧ currentRequest
      (removeAnswered (λ r : string * nat, r.1) ("r1", 0)
                      [("r1", 0); ("r2", 1); ("r3", 2)])
    = currentRequest [("r2", 1); ("r3", 2)].
Proof.
  refine (answered_request_dequeued (λ r : string * nat, r.1) ("r1", 0)
            [("r2", 1); ("r3", 2)] _).
  apply (bool_decide_unpack _). by vm_compute.
Defined.
